(** * Tina's Crazy Eights: the rule engine of [src/App.tsx]

    A shallow embedding of the game state ([types.ts]), of the event
    handlers of the [App] component ([initGame], [handlePlayCard],
    [handleDrawCard], [handleSuitSelect]) and of the AI effect, followed by
    the properties of the engine.

    React state is modelled by explicit state passing.  A handler runs
    against the [gameState] of the render that created it and either returns
    without an update, or calls [setGameState] with an updater
    [prev => ({...prev, ...})]; the updater is a function of the state that
    is current when React applies it.

    [constants.ts] ([createDeck], [shuffle], [isValidMove], [SUITS]) is not
    among the sources: the deck and the validator follow the specification,
    and the shuffled deck is an input of [initGame]. *)

From Stdlib Require Import String.
From Stdlib Require Import List Bool Arith Lia ZArith Permutation.
Import ListNotations.
Local Open Scope list_scope.

(** ** Data model ([types.ts]) *)

Inductive Suit := hearts | diamonds | clubs | spades.

Inductive Rank :=
  rA | r2 | r3 | r4 | r5 | r6 | r7 | r8 | r9 | r10 | rJ | rQ | rK.

Record Card := mkCard { id : string; suit : Suit; rank : Rank }.

Inductive GameStatus := dealing | playing | suit_selection | game_over.

Inductive Turn := player | ai.

Record GameState := mkGameState {
  deck : list Card;
  playerHand : list Card;
  aiHand : list Card;
  discardPile : list Card;
  currentTurn : Turn;
  status : GameStatus;
  winner : option Turn;
  pendingSuitChange : bool;
  currentSuit : option Suit
}.

Definition suit_eqb (a b : Suit) : bool :=
  match a, b with
  | hearts, hearts | diamonds, diamonds | clubs, clubs | spades, spades => true
  | _, _ => false
  end.

Definition rank_eqb (a b : Rank) : bool :=
  match a, b with
  | rA, rA | r2, r2 | r3, r3 | r4, r4 | r5, r5 | r6, r6 | r7, r7 | r8, r8
  | r9, r9 | r10, r10 | rJ, rJ | rQ, rQ | rK, rK => true
  | _, _ => false
  end.

Definition turn_eqb (a b : Turn) : bool :=
  match a, b with
  | player, player | ai, ai => true
  | _, _ => false
  end.

Definition status_eqb (a b : GameStatus) : bool :=
  match a, b with
  | dealing, dealing | playing, playing
  | suit_selection, suit_selection | game_over, game_over => true
  | _, _ => false
  end.

(** [card.rank === '8'] *)
Definition isEight (c : Card) : bool := rank_eqb (rank c) r8.

(** [c => c.id !== card.id], the predicate both hands are filtered with. *)
Definition otherThan (card c : Card) : bool := negb (String.eqb (id c) (id card)).

(** ** The deck and the move validator ([constants.ts]) *)

(** Modelled from the spec: [SUITS] of [constants.ts], which is not among
    the sources: the four suits of the data model; [RANKS] lists its
    thirteen ranks. *)
Definition SUITS : list Suit := [hearts; diamonds; clubs; spades].

Definition RANKS : list Rank :=
  [rA; r2; r3; r4; r5; r6; r7; r8; r9; r10; rJ; rQ; rK].

Definition suitName (s : Suit) : string :=
  match s with
  | hearts => "hearts" | diamonds => "diamonds"
  | clubs => "clubs" | spades => "spades"
  end%string.

Definition rankName (r : Rank) : string :=
  match r with
  | rA => "A" | r2 => "2" | r3 => "3" | r4 => "4" | r5 => "5" | r6 => "6"
  | r7 => "7" | r8 => "8" | r9 => "9" | r10 => "10" | rJ => "J" | rQ => "Q"
  | rK => "K"
  end%string.

(** The card of a suit and a rank.  The text of the id is the model's choice;
    what the engine relies on is that different cards carry different ids. *)
Definition card (s : Suit) (r : Rank) : Card :=
  mkCard (rankName r ++ "-" ++ suitName s)%string s r.

(** Modelled from the spec: [createDeck] of [constants.ts], which is not
    among the sources: exactly 52 cards, one per (suit, rank) pair, each
    with a distinct identity. *)
Definition createDeck : list Card :=
  flat_map (fun s => map (card s) RANKS) SUITS.

(** Modelled from the spec: [isValidMove] of [constants.ts], which is not
    among the sources.  Rank-8 wildness is checked before suit and rank
    matching; with an override the card has to follow the override suit,
    without one it has to match the top card in suit or in rank. *)
Definition isValidMove (card topCard : Card) (suitOverride : option Suit) : bool :=
  if isEight card then true
  else match suitOverride with
       | Some s => suit_eqb (suit card) s
       | None => suit_eqb (suit card) (suit topCard)
                 || rank_eqb (rank card) (rank topCard)
       end.

(** ** Array helpers *)

(** [a.slice(from, to)] for [from <= to], and [a.slice(from)]; an index past
    the end is clamped to the length, by [firstn] and [skipn] as by
    [slice]. *)
Definition slice {A} (a : list A) (from to : nat) : list A :=
  firstn (to - from) (skipn from a).

Definition sliceFrom {A} (a : list A) (from : nat) : list A := skipn from a.

(** [a.splice(i, 1)]: the removed elements, and the array that remains. *)
Definition splice1 {A} (a : list A) (i : nat) : list A * list A :=
  (firstn 1 (skipn i a), firstn i a ++ skipn (S i) a).

(** [a[a.length - 1]], [undefined] on the empty array. *)
Definition lastElement {A} (a : list A) : option A :=
  nth_error a (length a - 1).

(** [a.find(p)] *)
Definition arrayFind {A} (p : A -> bool) (a : list A) : option A := find p a.

(** ** Session start: [initGame] *)

(** The [while] loop of [initGame]: advance [firstDiscardIndex] over the
    eights of [remainingDeck].  [rest] is the part of the array from the
    index on.  Past the end [remainingDeck[firstDiscardIndex]] is
    [undefined] and reading its [rank] throws: [None]. *)
Fixpoint skipEights (rest : list Card) (firstDiscardIndex : nat) : option nat :=
  match rest with
  | [] => None
  | c :: rest' =>
      if isEight c then skipEights rest' (S firstDiscardIndex)
      else Some firstDiscardIndex
  end.

(** [initGame], given the array that [shuffle(createDeck())] returned. *)
Definition initGame (fullDeck : list Card) : option GameState :=
  let playerHand := slice fullDeck 0 8 in
  let aiHand := slice fullDeck 8 16 in
  let remainingDeck := sliceFrom fullDeck 16 in
  match skipEights remainingDeck 0 with
  | None => None
  | Some firstDiscardIndex =>
      let '(initialDiscard, remainingDeck') := splice1 remainingDeck firstDiscardIndex in
      Some {| deck := remainingDeck';
              playerHand := playerHand;
              aiHand := aiHand;
              discardPile := initialDiscard;
              currentTurn := player;
              status := playing;
              winner := None;
              pendingSuitChange := false;
              currentSuit := None |}
  end.

(** The state the component is mounted with. *)
Definition initialState : GameState :=
  {| deck := []; playerHand := []; aiHand := []; discardPile := [];
     currentTurn := player; status := dealing; winner := None;
     pendingSuitChange := false; currentSuit := None |}.

(** ** Handlers *)

Definition Updater := GameState -> GameState.

(** What a handler does to the React state. *)
Inductive Outcome :=
| Ignored                 (* returns without calling setGameState *)
| Update (u : Updater)    (* setGameState(prev => ...) *)
| SkipLater               (* setTimeout(() => setGameState(skipTurn), 1000) *)
| NoTopCard.              (* the validator would be handed an undefined top
                             card; what it does then is not modelled *)

(** [const topCard = gameState.discardPile[gameState.discardPile.length - 1]] *)
Definition topCard (gameState : GameState) : option Card :=
  lastElement (discardPile gameState).

(** [gameState.currentTurn !== who || gameState.status !== 'playing'] *)
Definition notPlaying (gameState : GameState) (who : Turn) : bool :=
  negb (turn_eqb (currentTurn gameState) who)
  || negb (status_eqb (status gameState) playing).

Definition handlePlayCard (gameState : GameState) (card : Card) : Outcome :=
  if notPlaying gameState player then Ignored
  else
    match topCard gameState with
    | None => NoTopCard
    | Some top =>
        if isValidMove card top (currentSuit gameState) then
          let newPlayerHand := filter (otherThan card) (playerHand gameState) in
          let newDiscardPile := discardPile gameState ++ [card] in
          if Nat.eqb (length newPlayerHand) 0 then
            Update (fun prev =>
              {| deck := deck prev;
                 playerHand := newPlayerHand;
                 aiHand := aiHand prev;
                 discardPile := newDiscardPile;
                 currentTurn := currentTurn prev;
                 status := game_over;
                 winner := Some player;
                 pendingSuitChange := pendingSuitChange prev;
                 currentSuit := currentSuit prev |})
          else if isEight card then
            Update (fun prev =>
              {| deck := deck prev;
                 playerHand := newPlayerHand;
                 aiHand := aiHand prev;
                 discardPile := newDiscardPile;
                 currentTurn := currentTurn prev;
                 status := suit_selection;
                 winner := winner prev;
                 pendingSuitChange := true;
                 currentSuit := currentSuit prev |})
          else
            Update (fun prev =>
              {| deck := deck prev;
                 playerHand := newPlayerHand;
                 aiHand := aiHand prev;
                 discardPile := newDiscardPile;
                 currentTurn := ai;
                 status := status prev;
                 winner := winner prev;
                 pendingSuitChange := pendingSuitChange prev;
                 currentSuit := None |})
        else Ignored
    end.

(** [prev => ({ ...prev, currentTurn: 'ai' })], the update the skipped turn
    of [handleDrawCard] schedules. *)
Definition skipTurn : Updater := fun prev =>
  {| deck := deck prev;
     playerHand := playerHand prev;
     aiHand := aiHand prev;
     discardPile := discardPile prev;
     currentTurn := ai;
     status := status prev;
     winner := winner prev;
     pendingSuitChange := pendingSuitChange prev;
     currentSuit := currentSuit prev |}.

Definition handleDrawCard (gameState : GameState) : Outcome :=
  if notPlaying gameState player then Ignored
  else
    match deck gameState with
    | [] => SkipLater
    | drawnCard :: remainingDeck =>
        let newHand := playerHand gameState ++ [drawnCard] in
        Update (fun prev =>
          {| deck := remainingDeck;
             playerHand := newHand;
             aiHand := aiHand prev;
             discardPile := discardPile prev;
             currentTurn := ai;
             status := status prev;
             winner := winner prev;
             pendingSuitChange := pendingSuitChange prev;
             currentSuit := currentSuit prev |})
    end.

Definition handleSuitSelect (suit : Suit) : Outcome :=
  Update (fun prev =>
    {| deck := deck prev;
       playerHand := playerHand prev;
       aiHand := aiHand prev;
       discardPile := discardPile prev;
       currentTurn := ai;
       status := playing;
       winner := winner prev;
       pendingSuitChange := false;
       currentSuit := Some suit |}).

(** ** The AI effect *)

(** [suitCounts], a [Record<Suit, number>] built by the reducer: its own
    keys in insertion order, each with its value. *)
Definition SuitCounts := list (Suit * nat).

(** [acc[k]], [undefined] when [k] is not a key. *)
Fixpoint getCount (acc : SuitCounts) (k : Suit) : option nat :=
  match acc with
  | [] => None
  | (k', n) :: acc' => if suit_eqb k' k then Some n else getCount acc' k
  end.

(** [v || 0] on a number or [undefined]. *)
Definition orZero (v : option nat) : nat :=
  match v with
  | Some (S n) => S n
  | _ => 0
  end.

(** [acc[k] = v]: an existing key keeps its place, a new key goes last. *)
Fixpoint setCount (acc : SuitCounts) (k : Suit) (v : nat) : SuitCounts :=
  match acc with
  | [] => [(k, v)]
  | (k', n) :: acc' =>
      if suit_eqb k' k then (k', v) :: acc' else (k', n) :: setCount acc' k v
  end.

(** [newAiHand.reduce((acc, c) => { acc[c.suit] = (acc[c.suit] || 0) + 1;
    return acc; }, {})] *)
Definition tally (newAiHand : list Card) : SuitCounts :=
  fold_left
    (fun acc c => setCount acc (suit c) (orZero (getCount acc (suit c)) + 1))
    newAiHand [].

(** [Object.keys(suitCounts)] *)
Definition objectKeys (acc : SuitCounts) : list Suit := map fst acc.

(** [(a, b) => suitCounts[b] - suitCounts[a]]; the comparator is only ever
    applied to keys of [suitCounts]. *)
Definition byCountDesc (suitCounts : SuitCounts) (a b : Suit) : Z :=
  (Z.of_nat (orZero (getCount suitCounts b))
   - Z.of_nat (orZero (getCount suitCounts a)))%Z.

(** [Array.prototype.sort] with a comparator: a stable sort, written as an
    insertion sort.  [x] comes from an earlier position than the elements of
    the sorted tail, so it stays in front of every element it does not
    compare greater than. *)
Fixpoint sortInsert {A} (compareFn : A -> A -> Z) (x : A) (sorted : list A) : list A :=
  match sorted with
  | [] => [x]
  | y :: sorted' =>
      if (compareFn x y <=? 0)%Z then x :: y :: sorted'
      else y :: sortInsert compareFn x sorted'
  end.

Fixpoint arraySort {A} (compareFn : A -> A -> Z) (a : list A) : list A :=
  match a with
  | [] => []
  | x :: a' => sortInsert compareFn x (arraySort compareFn a')
  end.

(** [Object.keys(suitCounts).sort(...)[0]], [undefined] on no keys. *)
Definition mostFrequentSuit (newAiHand : list Card) : option Suit :=
  let suitCounts := tally newAiHand in
  nth_error (arraySort (byCountDesc suitCounts) (objectKeys suitCounts)) 0.

(** [... || 'hearts'] *)
Definition bestSuit (newAiHand : list Card) : Suit :=
  match mostFrequentSuit newAiHand with
  | Some s => s
  | None => hearts
  end.

(** [playableCards] and [cardToPlay] of the timer callback. *)
Definition playableCards (gameState : GameState) (top : Card) : list Card :=
  filter (fun c => isValidMove c top (currentSuit gameState)) (aiHand gameState).

Definition cardToPlay (playable : list Card) : option Card :=
  match arrayFind (fun c => negb (isEight c)) playable with
  | Some nonEight => Some nonEight
  | None => nth_error playable 0
  end.

(** The body of the timer callback of the AI effect. *)
Definition aiMove (gameState : GameState) : Outcome :=
  match topCard gameState with
  | None => NoTopCard
  | Some top =>
      match cardToPlay (playableCards gameState top) with
      | Some cardToPlay =>
          let newAiHand := filter (otherThan cardToPlay) (aiHand gameState) in
          let newDiscardPile := discardPile gameState ++ [cardToPlay] in
          if Nat.eqb (length newAiHand) 0 then
            Update (fun prev =>
              {| deck := deck prev;
                 playerHand := playerHand prev;
                 aiHand := newAiHand;
                 discardPile := newDiscardPile;
                 currentTurn := currentTurn prev;
                 status := game_over;
                 winner := Some ai;
                 pendingSuitChange := pendingSuitChange prev;
                 currentSuit := currentSuit prev |})
          else if isEight cardToPlay then
            let bestSuit := bestSuit newAiHand in
            Update (fun prev =>
              {| deck := deck prev;
                 playerHand := playerHand prev;
                 aiHand := newAiHand;
                 discardPile := newDiscardPile;
                 currentTurn := player;
                 status := status prev;
                 winner := winner prev;
                 pendingSuitChange := pendingSuitChange prev;
                 currentSuit := Some bestSuit |})
          else
            Update (fun prev =>
              {| deck := deck prev;
                 playerHand := playerHand prev;
                 aiHand := newAiHand;
                 discardPile := newDiscardPile;
                 currentTurn := player;
                 status := status prev;
                 winner := winner prev;
                 pendingSuitChange := pendingSuitChange prev;
                 currentSuit := None |})
      | None =>
          match deck gameState with
          | drawnCard :: remainingDeck =>
              Update (fun prev =>
                {| deck := remainingDeck;
                   playerHand := playerHand prev;
                   aiHand := aiHand prev ++ [drawnCard];
                   discardPile := discardPile prev;
                   currentTurn := player;
                   status := status prev;
                   winner := winner prev;
                   pendingSuitChange := pendingSuitChange prev;
                   currentSuit := currentSuit prev |})
          | [] =>
              Update (fun prev =>
                {| deck := deck prev;
                   playerHand := playerHand prev;
                   aiHand := aiHand prev;
                   discardPile := discardPile prev;
                   currentTurn := player;
                   status := status prev;
                   winner := winner prev;
                   pendingSuitChange := pendingSuitChange prev;
                   currentSuit := currentSuit prev |})
          end
      end
  end.

(** The effect arms its timer only on the AI's turn of a running game; its
    cleanup cancels the timer whenever a state field the callback reads
    changes, so the callback fires against the state it was created for. *)
Definition aiEffect (gameState : GameState) : Outcome :=
  if turn_eqb (currentTurn gameState) ai && status_eqb (status gameState) playing
  then aiMove gameState
  else Ignored.

(** ** The component as a transition system *)

(** The React state together with the number of skip-turn timers that
    [handleDrawCard] has armed and that have not fired yet (nothing cancels
    them). *)
Record App := mkApp { gameState : GameState; skipTimers : nat }.

Inductive Action :=
| PlayCard (card : Card)         (* click on a card of the hand *)
| DrawCard                       (* click on the draw pile or on Draw Card *)
| SelectSuit (suit : Suit)       (* click in the suit picker *)
| Reset (fullDeck : list Card)   (* initGame, with the shuffled deck *)
| AiTimer                        (* the timer of the AI effect fires *)
| SkipTimer.                     (* a skip-turn timer fires *)

(** Applying what a handler did, in the render the handler belongs to. *)
Definition commit (app : App) (o : Outcome) : option App :=
  match o with
  | Ignored => Some app
  | Update u => Some (mkApp (u (gameState app)) (skipTimers app))
  | SkipLater => Some (mkApp (gameState app) (S (skipTimers app)))
  | NoTopCard => None
  end.

(** One event of the page.  [None]: the event cannot be carried out (the
    deal scans past the end of the deck, the validator is handed no top
    card, no skip-turn timer is armed). *)
Definition dispatch (app : App) (a : Action) : option App :=
  match a with
  | PlayCard card => commit app (handlePlayCard (gameState app) card)
  | DrawCard => commit app (handleDrawCard (gameState app))
  | SelectSuit suit => commit app (handleSuitSelect suit)
  | Reset fullDeck =>
      match initGame fullDeck with
      | Some s => Some (mkApp s (skipTimers app))
      | None => None
      end
  | AiTimer => commit app (aiEffect (gameState app))
  | SkipTimer =>
      match skipTimers app with
      | S n => Some (mkApp (skipTurn (gameState app)) n)
      | O => None
      end
  end.

(** What the page can deliver: the cards on offer are those of the player's
    hand, a deal starts from a shuffle of the full deck, and a skip-turn
    timer fires only if one is armed.  The draw button, the suit picker (it
    stays on the page while it fades out) and the AI timer are left to the
    checks of their handlers. *)
Definition offered (app : App) (a : Action) : Prop :=
  match a with
  | PlayCard card => In card (playerHand (gameState app))
  | Reset fullDeck => Permutation fullDeck createDeck
  | SkipTimer => 0 < skipTimers app
  | _ => True
  end.

(** The states of the component, from the mount on. *)
Inductive Reachable : App -> Prop :=
| reach_mount : Reachable (mkApp initialState 0)
| reach_step app a app' :
    Reachable app -> offered app a -> dispatch app a = Some app' ->
    Reachable app'.

(** The cards of a session, pile by pile. *)
Definition allCards (g : GameState) : list Card :=
  deck g ++ playerHand g ++ aiHand g ++ discardPile g.

(** Invariant 1 of the data model: the four piles partition the deck. *)
Definition fullDeckInv (g : GameState) : Prop :=
  Permutation (allCards g) createDeck.

(** [countSuit s hand]: how many cards of [hand] have suit [s]. *)
Definition countSuit (s : Suit) (hand : list Card) : nat :=
  length (filter (fun c => suit_eqb (suit c) s) hand).

(** ** The page's controls *)

(** [isPlayable] of a card of the player's hand:
    [gameState.currentTurn === 'player' && gameState.status === 'playing'
     && isValidMove(card, topCard, gameState.currentSuit)].
    [None]: the validator is handed an undefined top card. *)
Definition handCardPlayable (gameState : GameState) (card : Card) : option bool :=
  if turn_eqb (currentTurn gameState) player
     && status_eqb (status gameState) playing
  then match topCard gameState with
       | Some top => Some (isValidMove card top (currentSuit gameState))
       | None => None
       end
  else Some false.

(** The condition the Draw Card button is rendered under:
    [gameState.currentTurn === 'player' && gameState.status === 'playing']. *)
Definition drawPlayable (gameState : GameState) : bool :=
  turn_eqb (currentTurn gameState) player
  && status_eqb (status gameState) playing.

(** The draw pile takes a click: the pile is rendered only under
    [gameState.deck.length > 0] (otherwise the EMPTY placeholder, which has
    no handler), with [isPlayable] the condition of the button. *)
Definition drawPilePlayable (gameState : GameState) : bool :=
  negb (Nat.eqb (length (deck gameState)) 0)
  && (turn_eqb (currentTurn gameState) player
      && status_eqb (status gameState) playing).

(** [gameState.status === 'suit_selection' && (...)], the suit picker. *)
Definition suitPickerShown (gameState : GameState) : bool :=
  status_eqb (status gameState) suit_selection.

(** The controls as the page renders them: a card of the hand takes a click
    if it is playable ([onClick={isPlayable ? onClick : undefined}]), the
    draw button and the suit picker are there under their conditions, the
    reset button always; a draw is on offer through the Draw Card button
    (the draw pile, when it takes a click, calls the same handler under a
    stronger condition).  A control that is fading out is not counted. *)
Definition shown (app : App) (a : Action) : Prop :=
  match a with
  | PlayCard card =>
      In card (playerHand (gameState app))
      /\ handCardPlayable (gameState app) card = Some true
  | DrawCard => drawPlayable (gameState app) = true
  | SelectSuit _ => suitPickerShown (gameState app) = true
  | Reset fullDeck => Permutation fullDeck createDeck
  | AiTimer => True
  | SkipTimer => 0 < skipTimers app
  end.

(** The states of the component when it is driven through the controls it
    shows. *)
Inductive Played : App -> Prop :=
| played_mount : Played (mkApp initialState 0)
| played_step app a app' :
    Played app -> shown app a -> dispatch app a = Some app' ->
    Played app'.

(** ** Notions the statements are written with *)

(** No string occurs twice in [l]. *)
Fixpoint distinct (l : list string) : bool :=
  match l with
  | [] => true
  | x :: l' => negb (existsb (String.eqb x) l') && distinct l'
  end.

(** What an outcome leaves of a property [P] of the state it is applied to:
    an update has to establish it, and the handler must not have met an
    empty discard pile. *)
Definition establishes (P : GameState -> Prop) (g : GameState) (o : Outcome) : Prop :=
  match o with
  | Ignored | SkipLater => True
  | Update u => P (u g)
  | NoTopCard => False
  end.

(** A session after the deal: the piles partition the deck (invariant 1)
    and there is a top card (invariant 2). *)
Definition dealt (g : GameState) : Prop := fullDeckInv g /\ discardPile g <> [].

Definition card_eqb (a b : Card) : bool :=
  String.eqb (id a) (id b) && suit_eqb (suit a) (suit b)
  && rank_eqb (rank a) (rank b).

(** [dealt], as a test that can be run on a session. *)
Definition dealtb (g : GameState) : bool :=
  distinct (map id (allCards g))
  && Nat.eqb (length (allCards g)) 52
  && forallb (fun c => existsb (card_eqb c) createDeck) (allCards g)
  && negb (Nat.eqb (length (discardPile g)) 0).

(** The hand of [who], and the other side. *)
Definition actorHand (who : Turn) (g : GameState) : list Card :=
  match who with player => playerHand g | ai => aiHand g end.

Definition opponent (who : Turn) : Turn :=
  match who with player => ai | ai => player end.

(** How a play reaches the engine: the player clicks on the card; the AI's
    timer fires and the callback picks the card itself. *)
Definition playCard (who : Turn) (c : Card) : Action :=
  match who with player => PlayCard c | ai => AiTimer end.

(** [c] is the card [who] gets to play in [g]: for the player any card that
    is legal on [top], for the AI the card its policy picks. *)
Definition plays (who : Turn) (g : GameState) (top c : Card) : Prop :=
  match who with
  | player => isValidMove c top (currentSuit g) = true
  | ai => cardToPlay (playableCards g top) = Some c
  end.

(** An accepted play: it is [who]'s turn in a running game and [c] goes on
    the top card of the discard pile. *)
Definition accepted (who : Turn) (g : GameState) (c : Card) : Prop :=
  currentTurn g = who /\ status g = playing
  /\ exists top, topCard g = Some top /\ plays who g top c.

(** [suitCounts[k]], read as a number: 0 for a suit that is not a key. *)
Definition count (acc : SuitCounts) (k : Suit) : nat := orZero (getCount acc k).

(** The actions of a list, one after the other. *)
Fixpoint run (app : App) (actions : list Action) : option App :=
  match actions with
  | [] => Some app
  | a :: rest =>
      match dispatch app a with
      | Some app' => run app' rest
      | None => None
      end
  end.

(** How a draw reaches the engine: the player clicks, and on an empty deck
    the skip-turn timer fires a second later; the AI's timer callback draws
    by itself. *)
Definition drawCard (who : Turn) : list Action :=
  match who with
  | player => [DrawCard; SkipTimer]
  | ai => [AiTimer]
  end.

(** The AI draws only when it holds no playable card. *)
Definition mustDraw (who : Turn) (g : GameState) : Prop :=
  match who with
  | player => True
  | ai => exists top, topCard g = Some top /\ playableCards g top = []
  end.

(** Every action of the list is on offer when its turn comes. *)
Fixpoint offeredAll (app : App) (actions : list Action) : Prop :=
  match actions with
  | [] => True
  | a :: rest =>
      offered app a
      /\ match dispatch app a with
         | Some app' => offeredAll app' rest
         | None => False
         end
  end.

(** The flag [pendingSuitChange] is set exactly while a suit is being
    selected. *)
Definition pendingInv (g : GameState) : Prop :=
  pendingSuitChange g = true <-> status g = suit_selection.

(** An update, if the handler makes one, leaves [P] in place. *)
Definition keeps (P : GameState -> Prop) (g : GameState) (o : Outcome) : Prop :=
  match o with
  | Update u => P (u g)
  | _ => True
  end.

(** The reducer of [tally], from any accumulator: [tally hand] is
    [tallyFrom [] hand]. *)
Definition tallyFrom (acc : SuitCounts) (hand : list Card) : SuitCounts :=
  fold_left
    (fun acc c => setCount acc (suit c) (orZero (getCount acc (suit c)) + 1))
    hand acc.

(** The top card of the discard pile is an eight. *)
Definition topIsEight (g : GameState) : Prop :=
  exists top, topCard g = Some top /\ rank top = r8.

(** What holds of a session from the first deal on: the piles partition the
    deck; while the game runs nobody has won, both hands hold cards, and a
    suit override (or an open suit picker) sits on an eight; once the game
    is over the winner's hand is empty and the other hand is not. *)
Definition sound (g : GameState) : Prop :=
  dealt g
  /\ match status g with
     | dealing => False
     | playing =>
         winner g = None /\ playerHand g <> [] /\ aiHand g <> []
         /\ (currentSuit g <> None -> topIsEight g)
     | suit_selection =>
         winner g = None /\ playerHand g <> [] /\ aiHand g <> []
         /\ topIsEight g
     | game_over =>
         exists w, winner g = Some w /\ actorHand w g = []
                   /\ actorHand (opponent w) g <> []
     end.

(** Every action of the list is shown when its turn comes. *)
Fixpoint shownAll (app : App) (actions : list Action) : Prop :=
  match actions with
  | [] => True
  | a :: rest =>
      shown app a
      /\ match dispatch app a with
         | Some app' => shownAll app' rest
         | None => False
         end
  end.

(** ** Sessions used as examples *)

(** The full deck cut after its fourth card: the scan for the first discard
    starts on the eight of diamonds and stops on the nine. *)
Definition cutDeck : list Card := skipn 4 createDeck ++ firstn 4 createDeck.

(** A session laid out in deck order: 35 cards in the deck, eight in each
    hand (the player holds the high clubs and the low spades), the king of
    spades on the discard pile, the player to move. *)
Definition sampleGame : GameState :=
  {| deck := firstn 35 createDeck;
     playerHand := firstn 8 (skipn 35 createDeck);
     aiHand := firstn 8 (skipn 43 createDeck);
     discardPile := skipn 51 createDeck;
     currentTurn := player;
     status := playing;
     winner := None;
     pendingSuitChange := false;
     currentSuit := None |}.

(** The cards of [l] that are not among [taken], compared by id. *)
Definition without (taken l : list Card) : list Card :=
  filter (fun c => negb (existsb (fun t => String.eqb (id t) (id c)) taken)) l.

(** A running session with the given hands, discard pile, turn and suit
    override; the deck is the rest of the 52 cards. *)
Definition session (playerHand aiHand discardPile : list Card)
    (turn : Turn) (suitOverride : option Suit) : GameState :=
  {| deck := without (playerHand ++ aiHand ++ discardPile) createDeck;
     playerHand := playerHand;
     aiHand := aiHand;
     discardPile := discardPile;
     currentTurn := turn;
     status := playing;
     winner := None;
     pendingSuitChange := false;
     currentSuit := suitOverride |}.

(** The player's last card is the eight of hearts. *)
Definition lastEightGame : GameState :=
  session [card hearts r8] [card clubs r2; card diamonds r3]
          [card clubs r9; card spades rK] player None.

(** After the AI's eight the suit is hearts; the player holds the five of
    hearts and the jack of clubs. *)
Definition heartsCalledGame : GameState :=
  session [card hearts r5; card clubs rJ] [card clubs r2; card diamonds r3]
          [card clubs r9; card spades r8] player (Some hearts).

(** The AI holds the eight of clubs, two diamonds and a heart; on the king
    of spades only the eight can be played. *)
Definition aiEightGame : GameState :=
  session [card hearts r5; card clubs rJ]
          [card hearts r2; card diamonds r3; card clubs r8; card diamonds r7]
          [card clubs r9; card spades rK] ai None.

(** The AI holds an eight in front of the king of diamonds; on the king of
    spades the eight, the king and the three of spades can be played. *)
Definition aiChoiceGame : GameState :=
  session [card hearts r5; card clubs rJ]
          [card clubs r8; card hearts r2; card diamonds rK; card spades r3]
          [card clubs r9; card spades rK] ai None.

(** All cards are out and the king of spades is on top of the discard pile;
    the AI holds low hearts and diamonds, none of which goes on it. *)
Definition emptyDeckGame (turn : Turn) : GameState :=
  {| deck := [];
     playerHand := firstn 8 (skipn 7 createDeck) ++ firstn 4 (skipn 20 createDeck);
     aiHand := firstn 7 createDeck ++ firstn 5 (skipn 15 createDeck);
     discardPile := skipn 24 createDeck;
     currentTurn := turn;
     status := playing;
     winner := None;
     pendingSuitChange := false;
     currentSuit := None |}.

(** The deal from the unshuffled deck (one of the orders a shuffle can
    return), the player's eight of hearts on the four of diamonds, and
    hearts chosen in the suit picker. *)
Definition eightThenHearts : list Action :=
  [Reset createDeck; PlayCard (card hearts r8); SelectSuit hearts].

(** The component after [eightThenHearts]. *)
Definition heartsChosen : App :=
  match run (mkApp initialState 0) eightThenHearts with
  | Some app => app
  | None => mkApp initialState 0
  end.

(** The component after the deal from the unshuffled deck. *)
Definition freshDeal : App :=
  match run (mkApp initialState 0) [Reset createDeck] with
  | Some app => app
  | None => mkApp initialState 0
  end.

(** The deal from the unshuffled deck and the player's eight of hearts on
    the four of diamonds: the suit picker is open. *)
Definition eightPlayed : App :=
  match run (mkApp initialState 0)
            [Reset createDeck; PlayCard (card hearts r8)] with
  | Some app => app
  | None => mkApp initialState 0
  end.

(** From the deal of the unshuffled deck the player sheds hearts, the AI
    answering with its own hearts and then drawing; the player's eight of
    hearts calls hearts, the AI cannot follow and draws again, and the
    player is left with the seven of hearts under the hearts override. *)
Definition heartsGame : list Action :=
  [Reset createDeck;
   PlayCard (card hearts r4); AiTimer;
   PlayCard (card hearts rA); AiTimer;
   PlayCard (card hearts r2); AiTimer;
   PlayCard (card hearts r3); AiTimer;
   PlayCard (card hearts r5); AiTimer;
   PlayCard (card hearts r6); AiTimer;
   PlayCard (card hearts r8); SelectSuit hearts; AiTimer].

(** The component after [heartsGame]. *)
Definition matchPoint : App :=
  match run (mkApp initialState 0) heartsGame with
  | Some app => app
  | None => mkApp initialState 0
  end.

(** The component after [heartsGame] and the player's last card, the seven
    of hearts: the player has won. *)
Definition wonGame : App :=
  match dispatch matchPoint (PlayCard (card hearts r7)) with
  | Some app => app
  | None => matchPoint
  end.

(** The player holds the eight of hearts and the jack of clubs, the king of
    spades is on top of the discard pile. *)
Definition sampleEightGame : GameState :=
  session [card hearts r8; card clubs rJ] [card clubs r2; card diamonds r3]
          [card clubs r9; card spades rK] player None.

(** * Properties *)

(** ** Equality tests *)

Lemma suit_eqb_spec a b : reflect (a = b) (suit_eqb a b).
Proof. destruct a, b; simpl; constructor; congruence. Qed.

Lemma rank_eqb_spec a b : reflect (a = b) (rank_eqb a b).
Proof. destruct a, b; simpl; constructor; congruence. Qed.

Lemma turn_eqb_spec a b : reflect (a = b) (turn_eqb a b).
Proof. destruct a, b; simpl; constructor; congruence. Qed.

Lemma status_eqb_spec a b : reflect (a = b) (status_eqb a b).
Proof. destruct a, b; simpl; constructor; congruence. Qed.

(** ** Lists *)

Section ListFacts.
Context {A : Type}.

Lemma lastElement_snoc (l : list A) (x : A) : lastElement (l ++ [x]) = Some x.
Proof.
  unfold lastElement. rewrite length_app. simpl.
  replace (length l + 1 - 1) with (length l) by lia.
  rewrite nth_error_app2 by lia. now rewrite Nat.sub_diag.
Qed.

Lemma lastElement_some (l : list A) : l <> [] -> exists x, lastElement l = Some x.
Proof.
  intros H. destruct (exists_last H) as [l' [x ->]].
  exists x. apply lastElement_snoc.
Qed.

Lemma splice1_nth (l : list A) (i : nat) (x : A) :
  nth_error l i = Some x ->
  splice1 l i = ([x], firstn i l ++ skipn (S i) l)
  /\ Permutation l (x :: firstn i l ++ skipn (S i) l).
Proof.
  revert i. induction l as [|y l IH]; intros [|i] H; try discriminate.
  - injection H as ->. unfold splice1. simpl. now split.
  - simpl in H. destruct (IH i H) as [E P]. unfold splice1 in *. split.
    + cbn [skipn]. f_equal. now apply (f_equal fst) in E.
    + cbn [firstn skipn app]. rewrite perm_swap. now constructor.
Qed.

Lemma filter_length_perm (p : A -> bool) (l l' : list A) :
  Permutation l l' -> length (filter p l) = length (filter p l').
Proof.
  induction 1; simpl; try congruence.
  - destruct (p x); simpl; congruence.
  - destruct (p x), (p y); reflexivity.
Qed.

Lemma filter_length_skipn (p : A -> bool) (n : nat) (l : list A) :
  length (filter p (skipn n l)) <= length (filter p l).
Proof.
  revert l. induction n as [|n IH]; intros [|x l]; simpl; auto.
  destruct (p x); simpl; specialize (IH l); lia.
Qed.

Lemma filter_all_length (p : A -> bool) (l : list A) :
  (forall x, In x l -> p x = true) -> length (filter p l) = length l.
Proof.
  induction l as [|x l IH]; simpl; intros H; auto.
  rewrite (H x) by auto. simpl. f_equal. apply IH. auto.
Qed.

End ListFacts.

(** ** Card identities *)

Lemma distinct_NoDup (l : list string) : distinct l = true -> NoDup l.
Proof.
  induction l as [|x l IH]; simpl; [constructor|].
  intros [Hx Hl]%andb_prop. constructor; auto.
  intros Hin. apply negb_true_iff in Hx.
  assert (existsb (String.eqb x) l = true); [|congruence].
  apply existsb_exists. exists x. split; auto. apply String.eqb_refl.
Qed.

Lemma createDeck_ids : NoDup (map id createDeck).
Proof. apply distinct_NoDup. vm_compute. reflexivity. Qed.

Lemma createDeck_length : length createDeck = 52.
Proof. reflexivity. Qed.

Lemma createDeck_eights : length (filter isEight createDeck) = 4.
Proof. reflexivity. Qed.

(** Removing a card by id from a pile of distinct ids removes that card and
    nothing else. *)
Lemma filter_otherThan_perm (l : list Card) (c : Card) :
  NoDup (map id l) -> In c l ->
  Permutation l (c :: filter (otherThan c) l).
Proof.
  induction l as [|x l IH]; simpl; [tauto|].
  intros Hnd Hin. inversion Hnd as [|? ? Hx Hl]; subst.
  unfold otherThan at 1. destruct Hin as [->|Hin].
  - rewrite String.eqb_refl. simpl. constructor.
    rewrite forallb_filter_id; auto.
    apply forallb_forall. intros y Hy. unfold otherThan.
    destruct (String.eqb_spec (id y) (id c)) as [E|]; auto.
    elim Hx. rewrite <- E. now apply in_map.
  - destruct (String.eqb_spec (id x) (id c)) as [E|_]; simpl.
    + elim Hx. rewrite E. now apply in_map.
    + rewrite perm_swap. constructor. auto.
Qed.

Lemma fullDeckInv_ids (g : GameState) :
  fullDeckInv g -> NoDup (map id (allCards g)).
Proof.
  intros H. eapply Permutation_NoDup; [|apply createDeck_ids].
  apply Permutation_map. symmetry. exact H.
Qed.

(** ** Dealing *)

Lemma isEight_false_iff (c : Card) : isEight c = false <-> rank c <> r8.
Proof.
  unfold isEight. destruct (rank_eqb_spec (rank c) r8); split; congruence.
Qed.

Lemma isEight_true_iff (c : Card) : isEight c = true <-> rank c = r8.
Proof.
  unfold isEight. destruct (rank_eqb_spec (rank c) r8); split; congruence.
Qed.

Lemma skipEights_found (rest : list Card) (k : nat) :
  (exists c, In c rest /\ isEight c = false) ->
  exists i c,
    skipEights rest k = Some (k + i)
    /\ nth_error rest i = Some c /\ isEight c = false.
Proof.
  revert k. induction rest as [|x rest IH]; intros k [c [Hin Hc]]; [easy|].
  simpl. destruct (isEight x) eqn:Ex.
  - destruct Hin as [->|Hin]; [congruence|].
    destruct (IH (S k)) as (i & c' & E & Hn & Hc'); [now exists c|].
    exists (S i), c'. rewrite E, Nat.add_succ_r. auto.
  - exists 0, x. rewrite Nat.add_0_r. auto.
Qed.

(** The deal, written out: the hands are the first two blocks of eight
    cards, the seed of the discard pile is the card the scan stopped at. *)
Lemma initGame_deal (fullDeck : list Card) :
  (exists c, In c (skipn 16 fullDeck) /\ isEight c = false) ->
  exists i top,
    nth_error (skipn 16 fullDeck) i = Some top /\ isEight top = false
    /\ initGame fullDeck =
       Some {| deck := firstn i (skipn 16 fullDeck) ++ skipn (S i) (skipn 16 fullDeck);
               playerHand := firstn 8 fullDeck;
               aiHand := firstn 8 (skipn 8 fullDeck);
               discardPile := [top];
               currentTurn := player;
               status := playing;
               winner := None;
               pendingSuitChange := false;
               currentSuit := None |}.
Proof.
  intros H. destruct (skipEights_found _ 0 H) as (i & top & E & Hn & Ht).
  exists i, top. repeat split; auto.
  unfold initGame, sliceFrom. rewrite E. simpl Nat.add.
  destruct (splice1_nth _ _ _ Hn) as [-> _]. reflexivity.
Qed.

(** A shuffle of the full deck leaves a non-eight among the 36 cards that
    are not dealt: the deck has only four eights. *)
Lemma shuffled_remainder (fullDeck : list Card) :
  Permutation fullDeck createDeck ->
  exists c, In c (skipn 16 fullDeck) /\ isEight c = false.
Proof.
  intros P.
  assert (L : length (skipn 16 fullDeck) = 36).
  { rewrite length_skipn, (Permutation_length P). reflexivity. }
  assert (E : length (filter isEight (skipn 16 fullDeck)) <= 4).
  { rewrite <- createDeck_eights, <- (filter_length_perm isEight _ _ P).
    apply filter_length_skipn. }
  destruct (existsb (fun c => negb (isEight c)) (skipn 16 fullDeck)) eqn:F.
  - apply existsb_exists in F. destruct F as [c [Hin Hc]]. exists c.
    split; auto. now apply negb_true_iff.
  - rewrite filter_all_length in E; [lia|]. intros c Hc.
    destruct (isEight c) eqn:Ec; auto.
    assert (existsb (fun c => negb (isEight c)) (skipn 16 fullDeck) = true);
      [|congruence].
    apply existsb_exists. exists c. rewrite Ec. auto.
Qed.

Lemma initGame_fullDeckInv (fullDeck : list Card) :
  Permutation fullDeck createDeck ->
  exists s, initGame fullDeck = Some s
            /\ fullDeckInv s /\ discardPile s <> []
            /\ status s = playing /\ pendingSuitChange s = false.
Proof.
  intros P.
  destruct (initGame_deal fullDeck (shuffled_remainder _ P)) as (i & top & Hn & _ & E).
  eexists. split; [exact E|]. repeat split; simpl; try discriminate.
  unfold fullDeckInv, allCards. simpl. rewrite <- P.
  destruct (splice1_nth _ _ _ Hn) as [_ Q].
  assert (S : fullDeck = firstn 8 fullDeck ++ firstn 8 (skipn 8 fullDeck)
                        ++ skipn 16 fullDeck).
  { rewrite <- (firstn_skipn 8 fullDeck) at 1. f_equal.
    rewrite <- (firstn_skipn 8 (skipn 8 fullDeck)) at 1. f_equal.
    now rewrite skipn_skipn. }
  apply Permutation_trans
    with (firstn 8 fullDeck ++ firstn 8 (skipn 8 fullDeck) ++ skipn 16 fullDeck);
    [|now rewrite <- S].
  set (rest := firstn i _ ++ _) in *. clearbody rest.
  rewrite (Permutation_app_comm rest), <- !app_assoc.
  do 2 apply Permutation_app_head.
  now rewrite Q.
Qed.

(** C7. A fresh deal from 52 cards, at least one of the 36 cards after the
    two hands not being an eight: the player holds the first eight cards,
    the AI the next eight, the discard pile is a single card that is not an
    eight, and 35 cards remain in the deck. *)
Theorem initGame_fresh_deal (fullDeck : list Card) :
  length fullDeck = 52 ->
  (exists c, In c (skipn 16 fullDeck) /\ rank c <> r8) ->
  exists s top,
    initGame fullDeck = Some s
    /\ playerHand s = firstn 8 fullDeck /\ length (playerHand s) = 8
    /\ aiHand s = firstn 8 (skipn 8 fullDeck) /\ length (aiHand s) = 8
    /\ discardPile s = [top] /\ length (discardPile s) = 1 /\ rank top <> r8
    /\ length (deck s) = 35
    /\ status s = playing /\ currentTurn s = player.
Proof.
  intros L [c [Hin Hc]].
  destruct (initGame_deal fullDeck) as (i & top & Hn & Ht & E).
  { exists c. split; auto. now apply isEight_false_iff. }
  eexists. exists top. split; [exact E|].
  cbn [playerHand aiHand discardPile deck status currentTurn].
  assert (Hi : i < 36).
  { assert (Hs : nth_error (skipn 16 fullDeck) i <> None) by congruence.
    apply nth_error_Some in Hs. rewrite length_skipn in Hs. lia. }
  repeat split; auto; try (now apply isEight_false_iff);
    rewrite ?length_app, ?length_firstn, ?length_skipn; lia.
Qed.

Lemma initGame_fresh_deal_witness :
  exists s top,
    initGame cutDeck = Some s
    /\ playerHand s = firstn 8 cutDeck /\ length (playerHand s) = 8
    /\ aiHand s = firstn 8 (skipn 8 cutDeck) /\ length (aiHand s) = 8
    /\ discardPile s = [top] /\ length (discardPile s) = 1 /\ rank top <> r8
    /\ length (deck s) = 35
    /\ status s = playing /\ currentTurn s = player.
Proof.
  apply (initGame_fresh_deal cutDeck).
  - reflexivity.
  - exists (card diamonds r9). split; [simpl; tauto | discriminate].
Defined.

(** C2. The validator accepts a card exactly when, under a suit override,
    the card follows the override or is an eight, and without an override,
    the card is an eight or matches the top card in suit or in rank; an
    eight is accepted on every top card and under every override. *)
Theorem isValidMove_spec (c topCard : Card) (suitOverride : option Suit) :
  (isValidMove c topCard suitOverride = true <->
   match suitOverride with
   | Some s => suit c = s \/ rank c = r8
   | None => rank c = r8 \/ suit c = suit topCard \/ rank c = rank topCard
   end)
  /\ (forall i s, isValidMove (mkCard i s r8) topCard suitOverride = true).
Proof.
  split; [|reflexivity].
  unfold isValidMove, isEight.
  destruct (rank_eqb_spec (rank c) r8) as [E8|N8].
  - destruct suitOverride; tauto.
  - destruct suitOverride as [s|].
    + destruct (suit_eqb_spec (suit c) s); intuition congruence.
    + destruct (suit_eqb_spec (suit c) (suit topCard)),
               (rank_eqb_spec (rank c) (rank topCard));
        simpl; intuition congruence.
Qed.

(** ** The four piles under the handlers *)

Lemma topCard_some (g : GameState) :
  discardPile g <> [] -> exists top, topCard g = Some top.
Proof. apply lastElement_some. Qed.

Lemma snoc_not_nil {A} (l : list A) (x : A) : l ++ [x] <> [].
Proof. destruct l; discriminate. Qed.

Lemma hand_ids (d h a p : list Card) :
  NoDup (map id (d ++ h ++ a ++ p)) -> NoDup (map id h) /\ NoDup (map id a).
Proof.
  rewrite !map_app. intros H.
  apply NoDup_app_remove_l in H. split.
  - now apply NoDup_app_remove_r in H.
  - apply NoDup_app_remove_l in H. now apply NoDup_app_remove_r in H.
Qed.

Lemma play_from_player (d h a p : list Card) (c : Card) :
  NoDup (map id (d ++ h ++ a ++ p)) -> In c h ->
  Permutation (d ++ filter (otherThan c) h ++ a ++ p ++ [c]) (d ++ h ++ a ++ p).
Proof.
  intros Hnd Hin. destruct (hand_ids _ _ _ _ Hnd) as [Hh _].
  apply Permutation_app_head.
  rewrite (filter_otherThan_perm h c Hh Hin) at 2.
  rewrite !app_assoc. rewrite <- Permutation_cons_append. reflexivity.
Qed.

Lemma play_from_ai (d h a p : list Card) (c : Card) :
  NoDup (map id (d ++ h ++ a ++ p)) -> In c a ->
  Permutation (d ++ h ++ filter (otherThan c) a ++ p ++ [c]) (d ++ h ++ a ++ p).
Proof.
  intros Hnd Hin. destruct (hand_ids _ _ _ _ Hnd) as [_ Ha].
  do 2 apply Permutation_app_head.
  rewrite (filter_otherThan_perm a c Ha Hin) at 2.
  rewrite !app_assoc. rewrite <- Permutation_cons_append. reflexivity.
Qed.

Lemma draw_to_player (x : Card) (d h a p : list Card) :
  Permutation (d ++ (h ++ [x]) ++ a ++ p) ((x :: d) ++ h ++ a ++ p).
Proof.
  rewrite <- (app_assoc h). simpl. now rewrite <- !Permutation_middle.
Qed.

Lemma draw_to_ai (x : Card) (d h a p : list Card) :
  Permutation (d ++ h ++ (a ++ [x]) ++ p) ((x :: d) ++ h ++ a ++ p).
Proof.
  rewrite <- (app_assoc a). simpl. now rewrite <- !Permutation_middle.
Qed.

(** The card the AI picks is in its hand and legal on the top card. *)
Lemma cardToPlay_playable (g : GameState) (top c : Card) :
  cardToPlay (playableCards g top) = Some c ->
  In c (aiHand g) /\ isValidMove c top (currentSuit g) = true.
Proof.
  unfold cardToPlay, arrayFind, playableCards. intros H.
  apply (filter_In (fun c => isValidMove c top (currentSuit g))).
  destruct (find _ _) eqn:F.
  - injection H as <-. now apply find_some in F.
  - now apply nth_error_In in H.
Qed.

Lemma handlePlayCard_dealt (g : GameState) (c : Card) :
  dealt g -> In c (playerHand g) -> establishes dealt g (handlePlayCard g c).
Proof.
  intros [Hinv Hp] Hin. unfold handlePlayCard.
  destruct (notPlaying g player); [exact I|].
  destruct (topCard_some g Hp) as [top ->].
  destruct (isValidMove c top (currentSuit g)); [|exact I].
  assert (Q : Permutation
                (deck g ++ filter (otherThan c) (playerHand g) ++ aiHand g
                 ++ discardPile g ++ [c]) createDeck).
  { rewrite play_from_player; auto. now apply fullDeckInv_ids. }
  destruct (Nat.eqb _ 0); [|destruct (isEight c)];
    (split; [exact Q | apply snoc_not_nil]).
Qed.

Lemma handleDrawCard_dealt (g : GameState) :
  dealt g -> establishes dealt g (handleDrawCard g).
Proof.
  intros [Hinv Hp]. unfold handleDrawCard.
  destruct (notPlaying g player); [exact I|].
  destruct (deck g) as [|x d] eqn:Ed; [exact I|].
  split; [|exact Hp]. unfold fullDeckInv, allCards in *. simpl deck in *.
  cbn [playerHand aiHand discardPile]. rewrite Ed in Hinv.
  now rewrite draw_to_player.
Qed.

Lemma aiMove_dealt (g : GameState) : dealt g -> establishes dealt g (aiMove g).
Proof.
  intros [Hinv Hp]. unfold aiMove.
  destruct (topCard_some g Hp) as [top ->].
  destruct (cardToPlay _) as [c|] eqn:Ec.
  - apply cardToPlay_playable in Ec. destruct Ec as [Hin _].
    assert (Q : Permutation
                  (deck g ++ playerHand g ++ filter (otherThan c) (aiHand g)
                   ++ discardPile g ++ [c]) createDeck).
    { rewrite play_from_ai; auto. now apply fullDeckInv_ids. }
    destruct (Nat.eqb _ 0); [|destruct (isEight c)];
      (split; [exact Q | apply snoc_not_nil]).
  - destruct (deck g) as [|x d] eqn:Ed.
    + split; [exact Hinv | exact Hp].
    + split; [|exact Hp]. unfold fullDeckInv, allCards in *. simpl deck in *.
      cbn [playerHand aiHand discardPile]. rewrite Ed in Hinv.
      now rewrite draw_to_ai.
Qed.

Lemma commit_establishes (P : GameState -> Prop) (app : App) (o : Outcome) :
  P (gameState app) -> establishes P (gameState app) o ->
  exists app', commit app o = Some app' /\ P (gameState app').
Proof.
  intros HP H. destruct o; simpl in *; try (eexists; split; [reflexivity|]; auto).
  contradiction.
Qed.

(** C1. From a dealt session (the four piles are a rearrangement of the
    52-card deck, the discard pile is not empty) every action the page can
    deliver (playing a card of the hand, drawing, selecting a suit, a new
    deal, the AI's move, a skipped turn) is carried out and leaves a dealt
    session: no card is duplicated and none is lost. *)
Theorem actions_preserve_full_deck (app : App) (a : Action) :
  fullDeckInv (gameState app) -> discardPile (gameState app) <> [] ->
  offered app a ->
  exists app',
    dispatch app a = Some app'
    /\ Permutation (allCards (gameState app')) createDeck
    /\ NoDup (allCards (gameState app'))
    /\ discardPile (gameState app') <> [].
Proof.
  intros Hinv Hp Hoff.
  assert (Hd : dealt (gameState app)) by (split; assumption).
  assert (G : exists app', dispatch app a = Some app' /\ dealt (gameState app')).
  { destruct a as [c|  |s|fullDeck|  |]; cbn [dispatch offered] in *.
    - apply commit_establishes; auto. now apply handlePlayCard_dealt.
    - apply commit_establishes; auto. now apply handleDrawCard_dealt.
    - apply commit_establishes; auto.
    - destruct (initGame_fullDeckInv fullDeck Hoff) as (s & -> & Hs & Hn & _).
      eexists. split; [reflexivity|]. split; assumption.
    - apply commit_establishes; auto. unfold aiEffect.
      destruct (_ && _); [now apply aiMove_dealt | exact I].
    - destruct (skipTimers app) as [|n]; [lia|].
      eexists. split; [reflexivity|]. exact Hd. }
  destruct G as (app' & E & Hinv' & Hp'). exists app'. repeat split; auto.
  apply (Permutation_NoDup (l := createDeck)); [now symmetry|].
  apply (NoDup_map_inv id). apply createDeck_ids.
Qed.

Lemma actions_preserve_full_deck_witness :
  exists app',
    dispatch (mkApp sampleGame 0) (PlayCard (card spades r3)) = Some app'
    /\ Permutation (allCards (gameState app')) createDeck
    /\ NoDup (allCards (gameState app'))
    /\ discardPile (gameState app') <> [].
Proof.
  apply (actions_preserve_full_deck (mkApp sampleGame 0) (PlayCard (card spades r3))).
  - apply Permutation_refl.
  - discriminate.
  - simpl. tauto.
Defined.

Lemma card_eqb_eq (a b : Card) : card_eqb a b = true -> a = b.
Proof.
  unfold card_eqb. destruct a as [i s r], b as [i' s' r']. simpl.
  intros H. apply andb_prop in H. destruct H as [H Hr].
  apply andb_prop in H. destruct H as [Hi Hs].
  apply String.eqb_eq in Hi.
  destruct (suit_eqb_spec s s'), (rank_eqb_spec r r'); congruence.
Qed.

Lemma dealtb_sound (g : GameState) : dealtb g = true -> dealt g.
Proof.
  unfold dealtb. intros H.
  apply andb_prop in H. destruct H as [H Hp].
  apply andb_prop in H. destruct H as [H Hin].
  apply andb_prop in H. destruct H as [Hd Hl].
  split.
  - unfold fullDeckInv. apply NoDup_Permutation_bis.
    + apply (NoDup_map_inv id). now apply distinct_NoDup.
    + apply Nat.eqb_eq in Hl. rewrite Hl, createDeck_length. lia.
    + intros c Hc. rewrite forallb_forall in Hin. specialize (Hin c Hc).
      apply existsb_exists in Hin. destruct Hin as (c' & Hc' & E).
      apply card_eqb_eq in E. now subst.
  - intros E. rewrite E in Hp. discriminate.
Qed.

(** The sessions used as examples are dealt sessions. *)
Example sample_sessions_dealt :
  Forall dealt
    [sampleGame; lastEightGame; heartsCalledGame; aiEightGame; aiChoiceGame;
     emptyDeckGame player; emptyDeckGame ai].
Proof.
  repeat (apply Forall_cons; [apply dealtb_sound; vm_compute; reflexivity|]).
  apply Forall_nil.
Qed.

(** ** Plays, by either side *)

Lemma notPlaying_false (g : GameState) (who : Turn) :
  currentTurn g = who -> status g = playing -> notPlaying g who = false.
Proof.
  intros Ht Hs. unfold notPlaying. rewrite Ht, Hs. now destruct who.
Qed.

Lemma aiEffect_armed (g : GameState) :
  currentTurn g = ai -> status g = playing -> aiEffect g = aiMove g.
Proof. intros Ht Hs. unfold aiEffect. now rewrite Ht, Hs. Qed.

(** The update of an accepted play, branch by branch. *)
Lemma accepted_play (who : Turn) (app : App) (c : Card) :
  accepted who (gameState app) c ->
  let g := gameState app in
  let newHand := filter (otherThan c) (actorHand who g) in
  exists g',
    dispatch app (playCard who c) = Some (mkApp g' (skipTimers app))
    /\ deck g' = deck g
    /\ actorHand who g' = newHand
    /\ actorHand (opponent who) g' = actorHand (opponent who) g
    /\ discardPile g' = discardPile g ++ [c]
    /\ (newHand = [] ->
        status g' = game_over /\ winner g' = Some who
        /\ currentTurn g' = currentTurn g
        /\ pendingSuitChange g' = pendingSuitChange g
        /\ currentSuit g' = currentSuit g)
    /\ (newHand <> [] -> isEight c = false ->
        status g' = status g /\ winner g' = winner g
        /\ currentTurn g' = opponent who
        /\ pendingSuitChange g' = pendingSuitChange g
        /\ currentSuit g' = None)
    /\ (newHand <> [] -> isEight c = true ->
        winner g' = winner g
        /\ match who with
           | player =>
               status g' = suit_selection /\ currentTurn g' = currentTurn g
               /\ pendingSuitChange g' = true
               /\ currentSuit g' = currentSuit g
           | ai =>
               status g' = status g /\ currentTurn g' = player
               /\ pendingSuitChange g' = pendingSuitChange g
               /\ currentSuit g' = Some (bestSuit newHand)
           end).
Proof.
  intros (Ht & Hs & top & Htop & Hplay) g newHand. subst g newHand.
  destruct who; simpl in Hplay |- *.
  - unfold handlePlayCard.
    rewrite (notPlaying_false _ _ Ht Hs), Htop, Hplay.
    destruct (filter _ _) as [|x l] eqn:F; simpl Nat.eqb; cbv iota;
      [|destruct (isEight c)]; (eexists; split; [reflexivity|]);
      simpl; repeat split; intros; congruence.
  - rewrite (aiEffect_armed _ Ht Hs). unfold aiMove. rewrite Htop, Hplay.
    destruct (filter _ _) as [|x l] eqn:F; simpl Nat.eqb; cbv iota;
      [|destruct (isEight c)]; (eexists; split; [reflexivity|]);
      simpl; repeat split; intros; congruence.
Qed.

(** C3. An accepted play, by the player or by the AI, that leaves the hand
    of the one who plays empty ends the game: the status is game_over, the
    winner is the one who played, and the turn stays where it was.  The rank
    of the card plays no part: an eight as last card wins without a suit
    selection. *)
Theorem winning_play_is_game_over (who : Turn) (app : App) (c : Card) :
  accepted who (gameState app) c ->
  filter (otherThan c) (actorHand who (gameState app)) = [] ->
  exists app',
    dispatch app (playCard who c) = Some app'
    /\ actorHand who (gameState app') = []
    /\ discardPile (gameState app') = discardPile (gameState app) ++ [c]
    /\ status (gameState app') = game_over
    /\ winner (gameState app') = Some who
    /\ currentTurn (gameState app') = currentTurn (gameState app)
    /\ pendingSuitChange (gameState app') = pendingSuitChange (gameState app).
Proof.
  intros Hacc Hempty.
  destruct (accepted_play who app c Hacc)
    as (g' & E & _ & Hh & _ & Hd & Hwin & _).
  destruct (Hwin Hempty) as (Hs & Hw & Ht & Hp & _).
  exists (mkApp g' (skipTimers app)). simpl.
  rewrite Hh, Hempty. repeat split; assumption.
Qed.

Lemma winning_play_is_game_over_witness :
  exists app',
    dispatch (mkApp lastEightGame 0) (PlayCard (card hearts r8)) = Some app'
    /\ playerHand (gameState app') = []
    /\ discardPile (gameState app')
       = [card clubs r9; card spades rK; card hearts r8]
    /\ status (gameState app') = game_over
    /\ winner (gameState app') = Some player
    /\ currentTurn (gameState app') = player
    /\ pendingSuitChange (gameState app') = false.
Proof.
  apply (winning_play_is_game_over player (mkApp lastEightGame 0) (card hearts r8)).
  - split; [reflexivity|]. split; [reflexivity|].
    exists (card spades rK). split; reflexivity.
  - reflexivity.
Defined.

(** C5, as the engine has it.  An accepted play of a card that is not an
    eight, by the player or by the AI, is carried out, and: if it leaves
    cards in the hand of the one who plays, the suit override is cleared
    and the turn passes to the other side; if it empties that hand, the
    game is over, the one who played is the winner, and the suit override
    is left as it was. *)
Theorem non_eight_play_clears_suit (who : Turn) (app : App) (c : Card) :
  accepted who (gameState app) c ->
  rank c <> r8 ->
  exists app',
    dispatch app (playCard who c) = Some app'
    /\ (filter (otherThan c) (actorHand who (gameState app)) <> [] ->
        currentSuit (gameState app') = None
        /\ currentTurn (gameState app') = opponent who
        /\ status (gameState app') = playing)
    /\ (filter (otherThan c) (actorHand who (gameState app)) = [] ->
        currentSuit (gameState app') = currentSuit (gameState app)
        /\ status (gameState app') = game_over
        /\ winner (gameState app') = Some who).
Proof.
  intros Hacc Hr. apply isEight_false_iff in Hr.
  destruct (accepted_play who app c Hacc)
    as (g' & E & _ & _ & _ & _ & Hwin & Hplain & _).
  exists (mkApp g' (skipTimers app)). split; [exact E|].
  cbn [gameState]. split.
  - intros Hrest. destruct (Hplain Hrest Hr) as (Hst & _ & Ht & _ & Hs).
    destruct Hacc as (_ & Hplaying & _). repeat split; congruence.
  - intros Hempty. destruct (Hwin Hempty) as (Hst & Hw & _ & _ & Hs).
    repeat split; assumption.
Qed.

Lemma non_eight_play_clears_suit_witness :
  (exists app',
     dispatch (mkApp heartsCalledGame 0) (PlayCard (card hearts r5)) = Some app'
     /\ currentSuit (gameState app') = None
     /\ currentTurn (gameState app') = ai
     /\ status (gameState app') = playing)
  /\ (exists app',
        dispatch matchPoint (PlayCard (card hearts r7)) = Some app'
        /\ currentSuit (gameState app') = Some hearts
        /\ status (gameState app') = game_over
        /\ winner (gameState app') = Some player).
Proof.
  split.
  - destruct (non_eight_play_clears_suit player (mkApp heartsCalledGame 0)
                (card hearts r5)) as (app' & E & Hrest & _).
    + split; [reflexivity|]. split; [reflexivity|].
      exists (card spades r8). split; reflexivity.
    + discriminate.
    + exists app'. split; [exact E|]. apply Hrest. discriminate.
  - destruct (non_eight_play_clears_suit player matchPoint (card hearts r7))
      as (app' & E & _ & Hempty).
    + split; [vm_compute; reflexivity|]. split; [vm_compute; reflexivity|].
      exists (card hearts r8). split; vm_compute; reflexivity.
    + discriminate.
    + exists app'. split; [exact E|].
      assert (F : filter (otherThan (card hearts r7))
                    (actorHand player (gameState matchPoint)) = [])
        by (vm_compute; reflexivity).
      assert (S : currentSuit (gameState matchPoint) = Some hearts)
        by (vm_compute; reflexivity).
      rewrite <- S. apply Hempty. exact F.
Defined.

(** ** The AI's suit tally *)

Lemma orZero_some (v : nat) : orZero (Some v) = v.
Proof. now destruct v. Qed.

Lemma count_setCount (acc : SuitCounts) (k k' : Suit) (v : nat) :
  count (setCount acc k v) k' = if suit_eqb k k' then v else count acc k'.
Proof.
  unfold count. induction acc as [|[k0 n] acc IH]; simpl.
  - destruct (suit_eqb k k'); [apply orZero_some | reflexivity].
  - destruct (suit_eqb_spec k0 k) as [->|Hk]; simpl.
    + destruct (suit_eqb_spec k k') as [->|Hk'].
      * destruct (suit_eqb_spec k' k'); [apply orZero_some | congruence].
      * destruct (suit_eqb_spec k k'); [congruence | reflexivity].
    + destruct (suit_eqb_spec k0 k') as [->|Hk']; [|exact IH].
      destruct (suit_eqb_spec k k'); [congruence | reflexivity].
Qed.

Lemma count_fold (hand : list Card) (acc : SuitCounts) (s : Suit) :
  count
    (fold_left
       (fun acc c => setCount acc (suit c) (orZero (getCount acc (suit c)) + 1))
       hand acc) s
  = count acc s + countSuit s hand.
Proof.
  revert acc. induction hand as [|c hand IH]; intros acc; simpl.
  - unfold countSuit. simpl. lia.
  - rewrite IH, count_setCount. unfold countSuit. simpl.
    destruct (suit_eqb_spec (suit c) s) as [->|]; simpl; [|reflexivity].
    fold (count acc s). lia.
Qed.

(** The tally holds, for every suit, the number of cards of that suit. *)
Lemma count_tally (hand : list Card) (s : Suit) :
  count (tally hand) s = countSuit s hand.
Proof. unfold tally. now rewrite count_fold. Qed.

Lemma count_not_key (acc : SuitCounts) (k : Suit) :
  ~ In k (objectKeys acc) -> count acc k = 0.
Proof.
  unfold count. induction acc as [|[k0 n] acc IH]; simpl; auto.
  intros H. destruct (suit_eqb_spec k0 k); [tauto|]. apply IH. tauto.
Qed.

(** The sorted keys start with a key of greatest count. *)
Lemma arraySort_head (acc : SuitCounts) (keys : list Suit) :
  keys <> [] ->
  exists h,
    nth_error (arraySort (byCountDesc acc) keys) 0 = Some h
    /\ In h keys
    /\ forall k, In k keys -> count acc k <= count acc h.
Proof.
  induction keys as [|x keys IH]; [congruence|]. intros _.
  destruct keys as [|y keys].
  - exists x. simpl. repeat split; auto. intros k [<-|[]]. lia.
  - destruct IH as (h & Hh & Hin & Hmax); [discriminate|].
    cbn [arraySort] in *.
    destruct (sortInsert _ y _) as [|h' sorted]; [discriminate|].
    injection Hh as ->. cbn [sortInsert]. unfold byCountDesc at 1.
    fold (count acc h) (count acc x).
    destruct (Z.leb_spec (Z.of_nat (count acc h) - Z.of_nat (count acc x)) 0).
    + exists x. repeat split; [now left|].
      intros k [<-|Hk]; [lia|]. specialize (Hmax k Hk). lia.
    + exists h. repeat split; [now right|].
      intros k [<-|Hk]; [lia|]. now apply Hmax.
Qed.

(** On a hand that is not empty the tally has a key, the suit the AI calls
    is the first of the sorted keys, and no suit has more cards in the
    hand. *)
Lemma bestSuit_most_frequent (hand : list Card) :
  hand <> [] ->
  exists s,
    mostFrequentSuit hand = Some s /\ bestSuit hand = s
    /\ 0 < countSuit s hand
    /\ forall s', countSuit s' hand <= countSuit s hand.
Proof.
  intros Hne. destruct hand as [|c0 hand0] eqn:Eh; [congruence|].
  rewrite <- Eh in *. clear Hne.
  assert (H0 : 0 < countSuit (suit c0) hand).
  { rewrite Eh. unfold countSuit. simpl.
    destruct (suit_eqb_spec (suit c0) (suit c0)); [simpl; lia | congruence]. }
  assert (Hkeys : objectKeys (tally hand) <> []).
  { intros E. rewrite <- count_tally, count_not_key in H0; [lia|].
    rewrite E. intros []. }
  destruct (arraySort_head (tally hand) _ Hkeys) as (s & Hs & _ & Hmax).
  assert (Hall : forall s', countSuit s' hand <= countSuit s hand).
  { intros s'. rewrite <- !count_tally.
    destruct (in_dec (fun a b => reflect_dec _ _ (suit_eqb_spec a b))
                s' (objectKeys (tally hand))) as [Hin|Hout].
    - now apply Hmax.
    - rewrite (count_not_key _ _ Hout). lia. }
  exists s. unfold bestSuit, mostFrequentSuit. rewrite Hs.
  repeat split; auto. specialize (Hall (suit c0)). lia.
Qed.

Example bestSuit_majority :
  bestSuit [card clubs r2; card diamonds r3; card diamonds r4] = diamonds.
Proof. reflexivity. Qed.

Example bestSuit_tie_first_seen :
  bestSuit [card spades r2; card diamonds r3; card spades r4; card diamonds r5]
  = spades.
Proof. reflexivity. Qed.

(** C9. When the AI plays an eight and keeps cards, the new suit override
    is the first of the sorted tally keys (the hearts fallback is not what
    supplies it), and no suit has more cards in the AI's remaining hand than
    the suit it calls. *)
Theorem ai_eight_calls_most_frequent_suit (app : App) (c : Card) :
  accepted ai (gameState app) c ->
  rank c = r8 ->
  filter (otherThan c) (aiHand (gameState app)) <> [] ->
  exists app' s,
    dispatch app AiTimer = Some app'
    /\ aiHand (gameState app') = filter (otherThan c) (aiHand (gameState app))
    /\ currentSuit (gameState app') = Some s
    /\ mostFrequentSuit (aiHand (gameState app')) = Some s
    /\ 0 < countSuit s (aiHand (gameState app'))
    /\ forall s',
         countSuit s' (aiHand (gameState app'))
         <= countSuit s (aiHand (gameState app')).
Proof.
  intros Hacc Hr Hrest. apply isEight_true_iff in Hr.
  destruct (accepted_play ai app c Hacc)
    as (g' & E & _ & Hh & _ & _ & _ & _ & Height).
  destruct (Height Hrest Hr) as (_ & _ & _ & _ & Hs).
  destruct (bestSuit_most_frequent _ Hrest) as (s & Hm & Hb & Hpos & Hmax).
  simpl in E, Hh, Hs. exists (mkApp g' (skipTimers app)), s. simpl.
  rewrite Hh, Hs, Hb. tauto.
Qed.

Lemma ai_eight_calls_most_frequent_suit_witness :
  exists app' s,
    dispatch (mkApp aiEightGame 0) AiTimer = Some app'
    /\ aiHand (gameState app')
       = [card hearts r2; card diamonds r3; card diamonds r7]
    /\ currentSuit (gameState app') = Some s
    /\ mostFrequentSuit (aiHand (gameState app')) = Some s
    /\ 0 < countSuit s (aiHand (gameState app'))
    /\ forall s',
         countSuit s' (aiHand (gameState app'))
         <= countSuit s (aiHand (gameState app')).
Proof.
  apply (ai_eight_calls_most_frequent_suit (mkApp aiEightGame 0) (card clubs r8)).
  - split; [reflexivity|]. split; [reflexivity|].
    exists (card spades rK). split; reflexivity.
  - reflexivity.
  - discriminate.
Defined.

(** ** The AI's choice of card *)

Lemma find_filter_first {A} (p q : A -> bool) (l : list A) (x : A) :
  find q (filter p l) = Some x ->
  exists before after,
    l = before ++ x :: after
    /\ forall y, In y before -> p y = true -> q y = false.
Proof.
  induction l as [|y l IH]; simpl; [discriminate|].
  destruct (p y) eqn:Ep; simpl.
  - destruct (q y) eqn:Eq; intros H.
    + injection H as ->. exists [], l. split; auto. intros ? [].
    + destruct (IH H) as (b & a & -> & Hb). exists (y :: b), a.
      split; auto. intros z [<-|Hz]; auto.
  - intros H. destruct (IH H) as (b & a & -> & Hb). exists (y :: b), a.
    split; auto. intros z [<-|Hz]; [congruence | auto].
Qed.

(** Of the playable cards the policy takes the first that is not an eight,
    in hand order, and an eight only if all of them are eights. *)
Lemma cardToPlay_first_non_eight (g : GameState) (top : Card) :
  match playableCards g top with
  | [] => cardToPlay (playableCards g top) = None
  | _ :: _ =>
      exists c,
        cardToPlay (playableCards g top) = Some c
        /\ ((rank c <> r8
             /\ exists before after,
                  aiHand g = before ++ c :: after
                  /\ forall y, In y before ->
                       isValidMove y top (currentSuit g) = true -> rank y = r8)
            \/ (rank c = r8
                /\ forall y, In y (playableCards g top) -> rank y = r8))
  end.
Proof.
  destruct (playableCards g top) as [|c0 l] eqn:E; [reflexivity|].
  rewrite <- E. unfold cardToPlay, arrayFind.
  destruct (find _ _) as [c|] eqn:F.
  - exists c. split; auto. left. split.
    + apply find_some in F. apply isEight_false_iff.
      now apply negb_true_iff.
    + unfold playableCards in F.
      destruct (find_filter_first _ _ _ _ F) as (b & a & Hl & Hb).
      exists b, a. split; auto. intros y Hy Hv.
      apply isEight_true_iff. specialize (Hb y Hy Hv).
      now apply negb_false_iff in Hb.
  - exists c0. rewrite E at 1. split; auto. right.
    assert (Hall : forall y, In y (playableCards g top) -> rank y = r8).
    { intros y Hy. apply isEight_true_iff.
      apply (find_none _ _ F) in Hy. now apply negb_false_iff in Hy. }
    split; auto. apply Hall. rewrite E. now left.
Qed.

(** C6. The AI's turn.  With no playable card in its hand the AI draws the
    front card of the deck, or forfeits if the deck is empty, and either way
    the turn passes to the player.  Otherwise it plays one of its playable
    cards: the first card of its hand that is playable and not an eight, or
    an eight if every playable card is an eight. *)
Theorem ai_turn_policy (app : App) (top : Card) :
  currentTurn (gameState app) = ai ->
  status (gameState app) = playing ->
  topCard (gameState app) = Some top ->
  exists app',
    dispatch app AiTimer = Some app'
    /\ match playableCards (gameState app) top with
       | [] =>
           currentTurn (gameState app') = player
           /\ match deck (gameState app) with
              | drawn :: rest =>
                  deck (gameState app') = rest
                  /\ aiHand (gameState app') = aiHand (gameState app) ++ [drawn]
              | [] =>
                  deck (gameState app') = []
                  /\ aiHand (gameState app') = aiHand (gameState app)
              end
           /\ playerHand (gameState app') = playerHand (gameState app)
           /\ discardPile (gameState app') = discardPile (gameState app)
           /\ status (gameState app') = playing
           /\ currentSuit (gameState app') = currentSuit (gameState app)
       | _ :: _ =>
           exists c,
             In c (playableCards (gameState app) top)
             /\ discardPile (gameState app') = discardPile (gameState app) ++ [c]
             /\ aiHand (gameState app')
                = filter (otherThan c) (aiHand (gameState app))
             /\ ((rank c <> r8
                  /\ exists before after,
                       aiHand (gameState app) = before ++ c :: after
                       /\ forall y, In y before ->
                            isValidMove y top (currentSuit (gameState app)) = true ->
                            rank y = r8)
                 \/ (rank c = r8
                     /\ forall y, In y (playableCards (gameState app) top) ->
                          rank y = r8))
       end.
Proof.
  intros Ht Hs Htop.
  pose proof (cardToPlay_first_non_eight (gameState app) top) as Hpol.
  destruct (playableCards (gameState app) top) as [|c0 l] eqn:Ep.
  - cbn [dispatch]. rewrite (aiEffect_armed _ Ht Hs). unfold aiMove.
    rewrite Htop, Ep, Hpol.
    destruct (deck (gameState app)) as [|drawn rest] eqn:Ed;
      (eexists; split; [reflexivity|]); simpl; rewrite ?Ed; auto 10.
  - destruct Hpol as (c & Hc & Hfirst).
    assert (Hacc : accepted ai (gameState app) c).
    { split; auto. split; auto. exists top. split; auto.
      simpl. now rewrite Ep. }
    destruct (accepted_play ai app c Hacc) as (g' & E & _ & Hh & _ & Hd & _).
    exists (mkApp g' (skipTimers app)). split; [exact E|].
    exists c. simpl in Hh |- *. rewrite <- Ep in Hc.
    apply cardToPlay_playable in Hc.
    repeat split; auto.
    change (In c (c0 :: l)). rewrite <- Ep. apply filter_In. exact Hc.
Qed.

Lemma ai_turn_policy_witness :
  exists app',
    dispatch (mkApp aiChoiceGame 0) AiTimer = Some app'
    /\ exists c,
         In c [card clubs r8; card diamonds rK; card spades r3]
         /\ discardPile (gameState app') = [card clubs r9; card spades rK] ++ [c]
         /\ aiHand (gameState app') = filter (otherThan c) (aiHand aiChoiceGame)
         /\ ((rank c <> r8
              /\ exists before after,
                   aiHand aiChoiceGame = before ++ c :: after
                   /\ forall y, In y before ->
                        isValidMove y (card spades rK) None = true ->
                        rank y = r8)
             \/ (rank c = r8
                 /\ forall y,
                      In y [card clubs r8; card diamonds rK; card spades r3] ->
                      rank y = r8)).
Proof.
  apply (ai_turn_policy (mkApp aiChoiceGame 0) (card spades rK));
    reflexivity.
Defined.

Example ai_plays_first_non_eight :
  option_map (fun app' => discardPile (gameState app'))
             (dispatch (mkApp aiChoiceGame 0) AiTimer)
  = Some [card clubs r9; card spades rK; card diamonds rK].
Proof. reflexivity. Qed.

(** ** Drawing from an empty deck *)

(** C8. A draw from an empty deck, by the player on the player's turn or
    forced on the AI, in a running game: the turn goes to the other side
    and nothing else changes; the player's click by itself changes nothing
    and arms the timer that flips the turn. *)
Theorem empty_deck_forfeits_turn (who : Turn) (app : App) :
  currentTurn (gameState app) = who ->
  status (gameState app) = playing ->
  deck (gameState app) = [] ->
  mustDraw who (gameState app) ->
  (who = player ->
   dispatch app DrawCard = Some (mkApp (gameState app) (S (skipTimers app))))
  /\ exists app',
       run app (drawCard who) = Some app'
       /\ currentTurn (gameState app') = opponent who
       /\ deck (gameState app') = []
       /\ playerHand (gameState app') = playerHand (gameState app)
       /\ aiHand (gameState app') = aiHand (gameState app)
       /\ discardPile (gameState app') = discardPile (gameState app)
       /\ status (gameState app') = playing
       /\ winner (gameState app') = winner (gameState app)
       /\ pendingSuitChange (gameState app') = pendingSuitChange (gameState app)
       /\ currentSuit (gameState app') = currentSuit (gameState app).
Proof.
  intros Ht Hs Hd Hm. destruct who; cbn [drawCard run dispatch].
  - unfold handleDrawCard.
    rewrite (notPlaying_false _ _ Ht Hs), Hd. cbn [commit gameState skipTimers].
    split; [reflexivity|]. eexists. split; [reflexivity|].
    simpl. rewrite Hd, Hs. tauto.
  - split; [discriminate|]. destruct Hm as (top & Htop & Hnone).
    rewrite (aiEffect_armed _ Ht Hs). unfold aiMove.
    rewrite Htop, Hnone, Hd. simpl.
    eexists. split; [reflexivity|]. simpl. rewrite Hd, Hs. tauto.
Qed.

Lemma empty_deck_forfeits_turn_witness :
  (exists app',
     run (mkApp (emptyDeckGame player) 0) [DrawCard; SkipTimer] = Some app'
     /\ currentTurn (gameState app') = ai
     /\ playerHand (gameState app') = playerHand (emptyDeckGame player)
     /\ aiHand (gameState app') = aiHand (emptyDeckGame player))
  /\ (exists app',
        run (mkApp (emptyDeckGame ai) 0) [AiTimer] = Some app'
        /\ currentTurn (gameState app') = player
        /\ playerHand (gameState app') = playerHand (emptyDeckGame ai)
        /\ aiHand (gameState app') = aiHand (emptyDeckGame ai)).
Proof.
  split.
  - destruct (empty_deck_forfeits_turn player (mkApp (emptyDeckGame player) 0)
                eq_refl eq_refl eq_refl I)
      as (_ & app' & E & Ht & _ & Hp & Ha & _).
    exists app'. auto.
  - destruct (empty_deck_forfeits_turn ai (mkApp (emptyDeckGame ai) 0)
                eq_refl eq_refl eq_refl
                (ex_intro _ (card spades rK) (conj eq_refl eq_refl)))
      as (_ & app' & E & Ht & _ & Hp & Ha & _).
    exists app'. auto.
Defined.

(** ** Rejected actions *)

(** Out of turn, or outside a running game, a click on a card or on the
    draw pile returns before any update; so does a click on a card that is
    not legal on the top card. *)
Lemma rejected_play_and_draw (app : App) (c : Card) :
  (notPlaying (gameState app) player = true ->
   dispatch app (PlayCard c) = Some app /\ dispatch app DrawCard = Some app)
  /\ (forall top,
        topCard (gameState app) = Some top ->
        isValidMove c top (currentSuit (gameState app)) = false ->
        dispatch app (PlayCard c) = Some app).
Proof.
  split.
  - intros H. cbn [dispatch]. unfold handlePlayCard, handleDrawCard.
    now rewrite H.
  - intros top Htop Hv. cbn [dispatch]. unfold handlePlayCard.
    rewrite Htop, Hv. now destruct (notPlaying _ _).
Qed.

(** [handleSuitSelect] looks at nothing: whatever the state, the game is
    running afterwards, it is the AI's turn and the suit is the one given. *)
Lemma handleSuitSelect_any_state (app : App) (s : Suit) :
  exists app',
    dispatch app (SelectSuit s) = Some app'
    /\ status (gameState app') = playing
    /\ currentTurn (gameState app') = ai
    /\ currentSuit (gameState app') = Some s
    /\ pendingSuitChange (gameState app') = false.
Proof. eexists. split; [reflexivity|]. simpl. auto. Qed.

(** ** Sessions played from the mount *)

Lemma offeredAll_cons (app app' : App) (a : Action) (rest : list Action) :
  offered app a -> dispatch app a = Some app' -> offeredAll app' rest ->
  offeredAll app (a :: rest).
Proof. intros Ha E Hrest. simpl. now rewrite E. Qed.

(** One action of a played session: it is on offer, and the engine is run
    on it to get the next state. *)
Ltac play_action :=
  eapply offeredAll_cons;
  [ cbn [offered];
    first [ exact I | apply Permutation_refl | simpl; tauto ]
  | vm_compute; reflexivity
  | ].

Ltac play_session := repeat play_action; exact I.

Lemma run_reachable (actions : list Action) (app : App) :
  Reachable app -> offeredAll app actions ->
  exists app', run app actions = Some app' /\ Reachable app'.
Proof.
  revert app. induction actions as [|a rest IH]; intros app Hr Ho; simpl in *.
  - now exists app.
  - destruct Ho as [Ha Hrest]. destruct (dispatch app a) as [app1|] eqn:E; [|easy].
    apply IH; auto. now apply (reach_step app a).
Qed.

Lemma heartsChosen_reachable : Reachable heartsChosen.
Proof.
  destruct (run_reachable eightThenHearts (mkApp initialState 0)) as (app & E & H).
  - constructor.
  - unfold eightThenHearts. play_session.
  - unfold heartsChosen. now rewrite E.
Qed.

(** C4, at the input where the engine departs from it.  In a session played
    from the mount the player has put an eight down and chosen hearts: the
    game is running again and it is the AI's turn.  A further click in the
    suit picker is not ignored: the suit to follow becomes spades. *)
Theorem select_suit_outside_suit_selection :
  Reachable heartsChosen
  /\ status (gameState heartsChosen) = playing
  /\ currentTurn (gameState heartsChosen) = ai
  /\ currentSuit (gameState heartsChosen) = Some hearts
  /\ exists app',
       dispatch heartsChosen (SelectSuit spades) = Some app'
       /\ currentSuit (gameState app') = Some spades
       /\ gameState app' <> gameState heartsChosen.
Proof.
  split; [apply heartsChosen_reachable|].
  do 3 (split; [vm_compute; reflexivity|]).
  eexists. split; [vm_compute; reflexivity|]. split; [reflexivity|].
  intros E. apply (f_equal currentSuit) in E. vm_compute in E. discriminate E.
Qed.

(** ** The pending-suit flag *)

Lemma commit_keeps (P : GameState -> Prop) (app app' : App) (o : Outcome) :
  P (gameState app) -> keeps P (gameState app) o ->
  commit app o = Some app' -> P (gameState app').
Proof.
  intros HP Hk E. destruct o; simpl in *; try injection E as <-; auto.
  discriminate.
Qed.

Lemma notPlaying_false_inv (g : GameState) (who : Turn) :
  notPlaying g who = false -> currentTurn g = who /\ status g = playing.
Proof.
  unfold notPlaying. intros H. apply orb_false_iff in H. destruct H as [Ht Hs].
  apply negb_false_iff in Ht, Hs.
  destruct (turn_eqb_spec (currentTurn g) who), (status_eqb_spec (status g) playing);
    split; congruence.
Qed.

Lemma pendingInv_playing (g : GameState) :
  pendingInv g -> status g = playing -> pendingSuitChange g = false.
Proof.
  intros [H _] Hs. destruct (pendingSuitChange g); auto.
  specialize (H eq_refl). congruence.
Qed.

Ltac pending_cases :=
  unfold pendingInv; simpl;
  repeat match goal with
         | H : status _ = _ |- _ => rewrite H
         | H : pendingSuitChange _ = _ |- _ => rewrite H
         end;
  split; congruence.

Lemma handlePlayCard_pending (g : GameState) (c : Card) :
  pendingInv g -> keeps pendingInv g (handlePlayCard g c).
Proof.
  intros Hinv. unfold handlePlayCard.
  destruct (notPlaying g player) eqn:Hn; [exact I|].
  apply notPlaying_false_inv in Hn. destruct Hn as [_ Hs].
  pose proof (pendingInv_playing g Hinv Hs) as Hp.
  destruct (topCard g); [|exact I].
  destruct (isValidMove _ _ _); [|exact I].
  destruct (Nat.eqb _ 0); [|destruct (isEight c)]; pending_cases.
Qed.

Lemma handleDrawCard_pending (g : GameState) :
  pendingInv g -> keeps pendingInv g (handleDrawCard g).
Proof.
  intros Hinv. unfold handleDrawCard.
  destruct (notPlaying g player); [exact I|].
  destruct (deck g); [exact I | exact Hinv].
Qed.

Lemma aiEffect_pending (g : GameState) :
  pendingInv g -> keeps pendingInv g (aiEffect g).
Proof.
  intros Hinv. unfold aiEffect.
  destruct (turn_eqb_spec (currentTurn g) ai) as [Ht|]; [|exact I].
  destruct (status_eqb_spec (status g) playing) as [Hs|]; [|exact I].
  pose proof (pendingInv_playing g Hinv Hs) as Hp.
  simpl. unfold aiMove. destruct (topCard g); [|exact I].
  destruct (cardToPlay _).
  - destruct (Nat.eqb _ 0); [|destruct (isEight _)]; pending_cases.
  - destruct (deck g); exact Hinv.
Qed.

(** The flag is set exactly while a suit is being selected, in every state
    the session can reach from the mount. *)
Lemma reachable_pendingInv (app : App) :
  Reachable app -> pendingInv (gameState app).
Proof.
  induction 1 as [|app a app' Hr IH Hoff E].
  - unfold pendingInv. simpl. split; discriminate.
  - destruct a as [c|  |s|fullDeck|  |]; cbn [dispatch] in E.
    + eapply commit_keeps; eauto using handlePlayCard_pending.
    + eapply commit_keeps; eauto using handleDrawCard_pending.
    + injection E as <-. pending_cases.
    + destruct (initGame_fullDeckInv fullDeck Hoff) as (s & Es & _ & _ & Hs & Hp).
      rewrite Es in E. injection E as <-. pending_cases.
    + eapply commit_keeps; eauto using aiEffect_pending.
    + destruct (skipTimers app); [discriminate|]. injection E as <-. exact IH.
Qed.

(** C10. In every state the session can reach from the mount, by deals,
    clicks on cards, on the draw pile and in the suit picker, AI moves and
    skip-turn timers: the pendingSuitChange flag is set exactly when the
    status is suit_selection.  The flag is set, together with the status,
    when the player plays an eight and keeps cards; [handleSuitSelect]
    clears it and makes the status playing; a fresh deal starts with the
    flag clear; the flag is clear when the game is over; and the AI's timer
    never changes the flag, which is clear before and after the AI's
    move. *)
Theorem pending_iff_suit_selection (app : App) :
  Reachable app ->
  (pendingSuitChange (gameState app) = true
   <-> status (gameState app) = suit_selection)
  /\ (forall c,
        accepted player (gameState app) c -> rank c = r8 ->
        filter (otherThan c) (playerHand (gameState app)) <> [] ->
        exists app',
          dispatch app (PlayCard c) = Some app'
          /\ status (gameState app') = suit_selection
          /\ pendingSuitChange (gameState app') = true)
  /\ (forall s,
        exists app',
          dispatch app (SelectSuit s) = Some app'
          /\ status (gameState app') = playing
          /\ pendingSuitChange (gameState app') = false)
  /\ (forall fullDeck app',
        dispatch app (Reset fullDeck) = Some app' ->
        status (gameState app') = playing
        /\ pendingSuitChange (gameState app') = false)
  /\ (status (gameState app) = game_over ->
      pendingSuitChange (gameState app) = false)
  /\ (forall app',
        dispatch app AiTimer = Some app' ->
        pendingSuitChange (gameState app') = pendingSuitChange (gameState app)
        /\ (currentTurn (gameState app) = ai ->
            status (gameState app) = playing ->
            pendingSuitChange (gameState app') = false
            /\ status (gameState app') <> suit_selection)).
Proof.
  intros Hr. pose proof (reachable_pendingInv app Hr) as Hinv.
  split; [exact Hinv|]. split; [|split; [|split; [|split]]].
  - intros c Hacc Hr8 Hrest. apply isEight_true_iff in Hr8.
    destruct (accepted_play player app c Hacc)
      as (g' & E & _ & _ & _ & _ & _ & _ & Height).
    destruct (Height Hrest Hr8) as (_ & Hs & _ & Hp & _).
    exists (mkApp g' (skipTimers app)). auto.
  - intros s. eexists. split; [reflexivity|]. split; reflexivity.
  - intros fullDeck app' E. cbn [dispatch] in E.
    unfold initGame in E. destruct (skipEights _ _); [|discriminate].
    destruct (splice1 _ _). injection E as <-. split; reflexivity.
  - intros Hs. destruct Hinv as [H _].
    destruct (pendingSuitChange (gameState app)); auto.
    specialize (H eq_refl). congruence.
  - intros app' E.
    assert (Hkeep : pendingSuitChange (gameState app')
                    = pendingSuitChange (gameState app)).
    { cbn [dispatch] in E. unfold aiEffect in E.
      destruct (_ && _); [|now injection E as <-].
      unfold aiMove in E. destruct (topCard _); [|discriminate].
      destruct (cardToPlay _).
      - destruct (Nat.eqb _ 0); [|destruct (isEight _)];
          now injection E as <-.
      - destruct (deck _); now injection E as <-. }
    split; [exact Hkeep|]. intros Ht Hs.
    assert (Hfalse : pendingSuitChange (gameState app') = false).
    { rewrite Hkeep. now apply pendingInv_playing. }
    split; [exact Hfalse|]. intros Hsel.
    assert (Hr' : Reachable app') by now apply (reach_step app AiTimer).
    apply (reachable_pendingInv app') in Hr'. apply Hr' in Hsel. congruence.
Qed.

Lemma pending_iff_suit_selection_witness :
  (status (gameState freshDeal) = playing
   /\ pendingSuitChange (gameState freshDeal) = false
   /\ dispatch freshDeal (PlayCard (card hearts r8)) = Some eightPlayed)
  /\ (status (gameState eightPlayed) = suit_selection
      /\ pendingSuitChange (gameState eightPlayed) = true)
  /\ (exists app',
        dispatch eightPlayed (SelectSuit hearts) = Some app'
        /\ status (gameState app') = playing
        /\ pendingSuitChange (gameState app') = false).
Proof.
  assert (R0 : Reachable freshDeal).
  { eapply (reach_step _ (Reset createDeck)).
    - apply reach_mount.
    - apply Permutation_refl.
    - vm_compute. reflexivity. }
  assert (E1 : dispatch freshDeal (PlayCard (card hearts r8)) = Some eightPlayed)
    by (vm_compute; reflexivity).
  assert (R1 : Reachable eightPlayed).
  { apply (reach_step freshDeal (PlayCard (card hearts r8))); auto.
    vm_compute. tauto. }
  destruct (pending_iff_suit_selection freshDeal R0)
    as (_ & Hset & _ & Hdeal & _).
  destruct (pending_iff_suit_selection eightPlayed R1)
    as (Hiff & _ & Hclear & _).
  split; [|split].
  - destruct (Hdeal createDeck freshDeal) as [Hs Hp];
      [vm_compute; reflexivity|].
    repeat split; assumption.
  - destruct (Hset (card hearts r8)) as (app' & E & Hs & Hp).
    + split; [vm_compute; reflexivity|]. split; [vm_compute; reflexivity|].
      exists (card diamonds r4). split; vm_compute; reflexivity.
    + reflexivity.
    + vm_compute. discriminate.
    + rewrite E1 in E. injection E as <-. split; assumption.
  - exact (Hclear hearts).
Defined.

Example eightPlayed_suit_selection :
  status (gameState eightPlayed) = suit_selection
  /\ pendingSuitChange (gameState eightPlayed) = true
  /\ currentTurn (gameState eightPlayed) = player.
Proof. vm_compute. repeat split. Qed.

(** ** A game played to its last card *)

Example matchPoint_state :
  playerHand (gameState matchPoint) = [card hearts r7]
  /\ currentTurn (gameState matchPoint) = player
  /\ status (gameState matchPoint) = playing
  /\ currentSuit (gameState matchPoint) = Some hearts
  /\ topCard (gameState matchPoint) = Some (card hearts r8)
  /\ aiHand (gameState matchPoint)
     = [card diamonds rA; card diamonds r2; card diamonds r3;
        card diamonds r5; card diamonds r6]
  /\ length (deck (gameState matchPoint)) = 33.
Proof. vm_compute. repeat split. Qed.

Lemma matchPoint_reachable : Reachable matchPoint.
Proof.
  destruct (run_reachable heartsGame (mkApp initialState 0)) as (app & E & H).
  - constructor.
  - unfold heartsGame. play_session.
  - unfold matchPoint. now rewrite E.
Qed.

(** C5 as stated fails.  At match point the player's seven of hearts is an
    accepted play of a card that is not an eight; it wins the game and the
    suit override stays hearts. *)
Lemma non_eight_winning_play_keeps_suit :
  Reachable matchPoint
  /\ accepted player (gameState matchPoint) (card hearts r7)
  /\ rank (card hearts r7) <> r8
  /\ exists app',
       dispatch matchPoint (playCard player (card hearts r7)) = Some app'
       /\ status (gameState app') = game_over
       /\ currentSuit (gameState app') = Some hearts
       /\ currentSuit (gameState app') <> None.
Proof.
  split; [apply matchPoint_reachable|]. split; [|split; [discriminate|]].
  - split; [vm_compute; reflexivity|]. split; [vm_compute; reflexivity|].
    exists (card hearts r8). split; vm_compute; reflexivity.
  - eexists. split; [vm_compute; reflexivity|].
    repeat split. discriminate.
Qed.

(** * Further properties of the engine *)

(** ** The deal *)

Lemma cutDeck_shuffle : Permutation cutDeck createDeck.
Proof.
  unfold cutDeck. etransitivity; [apply Permutation_app_comm|].
  rewrite firstn_skipn. apply Permutation_refl.
Qed.

(** X1. [initGame] never fails on a shuffle of the full deck: the scan for
    the first discard stays within the 36 cards that are left, the piles
    it deals partition the deck, and the session starts with the player to
    move, running, without winner, pending suit change or override. *)
Theorem initGame_shuffled (fullDeck : list Card) :
  Permutation fullDeck createDeck ->
  exists s top,
    initGame fullDeck = Some s
    /\ Permutation (allCards s) createDeck
    /\ discardPile s = [top] /\ rank top <> r8
    /\ length (playerHand s) = 8 /\ length (aiHand s) = 8
    /\ length (deck s) = 35
    /\ currentTurn s = player /\ status s = playing /\ winner s = None
    /\ pendingSuitChange s = false /\ currentSuit s = None.
Proof.
  intros P.
  destruct (shuffled_remainder fullDeck P) as (c & Hin & Hc).
  destruct (initGame_deal fullDeck) as (i & top & Hn & Ht & E);
    [now exists c|].
  destruct (initGame_fullDeckInv fullDeck P) as (s & Es & Hinv & _).
  rewrite E in Es. injection Es as <-. eexists. exists top.
  split; [exact E|]. split; [exact Hinv|].
  cbn [playerHand aiHand discardPile deck status currentTurn winner
       pendingSuitChange currentSuit].
  assert (L : length fullDeck = 52)
    by now rewrite (Permutation_length P), createDeck_length.
  assert (Hi : i < 36).
  { assert (Hs : nth_error (skipn 16 fullDeck) i <> None) by congruence.
    apply nth_error_Some in Hs. rewrite length_skipn in Hs. lia. }
  repeat split; auto; try (now apply isEight_false_iff);
    rewrite ?length_app, ?length_firstn, ?length_skipn; lia.
Qed.

Lemma initGame_shuffled_witness :
  exists s top,
    initGame cutDeck = Some s
    /\ Permutation (allCards s) createDeck
    /\ discardPile s = [top] /\ rank top <> r8
    /\ length (playerHand s) = 8 /\ length (aiHand s) = 8
    /\ length (deck s) = 35
    /\ currentTurn s = player /\ status s = playing /\ winner s = None
    /\ pendingSuitChange s = false /\ currentSuit s = None.
Proof.
  apply (initGame_shuffled cutDeck).
  unfold cutDeck. etransitivity; [apply Permutation_app_comm|].
  rewrite firstn_skipn. apply Permutation_refl.
Defined.

Lemma skipEights_none (rest : list Card) (k : nat) :
  skipEights rest k = None <-> forall c, In c rest -> rank c = r8.
Proof.
  revert k. induction rest as [|x rest IH]; intros k; simpl.
  - split; [intros _ c [] | reflexivity].
  - destruct (isEight x) eqn:Ex.
    + rewrite IH. apply isEight_true_iff in Ex. split.
      * intros H c [<-|Hc]; auto.
      * intros H c Hc. apply H. now right.
    + split; [discriminate|]. intros H.
      apply isEight_false_iff in Ex. elim Ex. apply H. now left.
Qed.

(** X2. [initGame] fails exactly when every card after the sixteenth is an
    eight (in particular on an array of at most sixteen cards): the scan
    then runs off the end of the remaining deck. *)
Theorem initGame_fails_iff (fullDeck : list Card) :
  initGame fullDeck = None
  <-> forall c, In c (skipn 16 fullDeck) -> rank c = r8.
Proof.
  rewrite <- (skipEights_none _ 0). unfold initGame, sliceFrom.
  destruct (skipEights (skipn 16 fullDeck) 0); [|tauto].
  destruct (splice1 _ _). split; discriminate.
Qed.

Example initGame_sixteen_cards : initGame (firstn 16 createDeck) = None.
Proof. reflexivity. Qed.

Example initGame_only_eights_left :
  initGame (firstn 16 createDeck ++ [card hearts r8; card spades r8]) = None.
Proof. reflexivity. Qed.

Lemma skipEights_prefix (eights rest : list Card) (top : Card) (k : nat) :
  (forall c, In c eights -> rank c = r8) -> rank top <> r8 ->
  skipEights (eights ++ top :: rest) k = Some (k + length eights).
Proof.
  intros He Ht. revert k.
  induction eights as [|x eights IH]; intros k; simpl.
  - apply isEight_false_iff in Ht. rewrite Ht. f_equal. lia.
  - assert (Ex : isEight x = true) by (apply isEight_true_iff, He; now left).
    rewrite Ex, IH; [f_equal; lia|]. intros c Hc. apply He. now right.
Qed.

Lemma splice1_middle {A} (a b : list A) (x : A) :
  splice1 (a ++ x :: b) (length a) = ([x], a ++ b).
Proof.
  unfold splice1. induction a as [|y a IH]; [reflexivity|].
  cbn [length app skipn firstn]. injection IH as E1 E2.
  now rewrite E1, E2.
Qed.

(** X3. The seed of the discard pile is the first card after the two hands
    that is not an eight, and the eights the scan passed stay in front of
    the deck, in their order, followed by the rest. *)
Theorem initGame_seed (fullDeck eights rest : list Card) (top : Card) :
  skipn 16 fullDeck = eights ++ top :: rest ->
  (forall c, In c eights -> rank c = r8) ->
  rank top <> r8 ->
  exists s,
    initGame fullDeck = Some s
    /\ discardPile s = [top]
    /\ deck s = eights ++ rest
    /\ playerHand s = firstn 8 fullDeck
    /\ aiHand s = firstn 8 (skipn 8 fullDeck).
Proof.
  intros E He Ht. unfold initGame, sliceFrom.
  rewrite E, (skipEights_prefix _ _ _ 0 He Ht). simpl Nat.add.
  rewrite splice1_middle. eexists. split; [reflexivity|]. repeat split.
Qed.

Lemma initGame_seed_witness :
  exists s,
    initGame cutDeck = Some s
    /\ discardPile s = [card diamonds r9]
    /\ deck s = [card diamonds r8] ++ skipn 18 cutDeck
    /\ playerHand s = firstn 8 cutDeck
    /\ aiHand s = firstn 8 (skipn 8 cutDeck).
Proof.
  apply (initGame_seed cutDeck [card diamonds r8] (skipn 18 cutDeck)
           (card diamonds r9)).
  - reflexivity.
  - intros c [<-|[]]. reflexivity.
  - discriminate.
Defined.

(** ** Clicks of the player *)

(** X4. A draw by the player from a deck that is not empty moves the front
    card of the deck to the back of the player's hand and passes the turn
    to the AI; the AI's hand, the discard pile, the status, the winner, the
    pending flag and the suit override stay as they are, and no timer is
    armed. *)
Theorem player_draw (app : App) (drawnCard : Card) (remainingDeck : list Card) :
  currentTurn (gameState app) = player ->
  status (gameState app) = playing ->
  deck (gameState app) = drawnCard :: remainingDeck ->
  exists app',
    dispatch app DrawCard = Some app'
    /\ deck (gameState app') = remainingDeck
    /\ playerHand (gameState app') = playerHand (gameState app) ++ [drawnCard]
    /\ currentTurn (gameState app') = ai
    /\ aiHand (gameState app') = aiHand (gameState app)
    /\ discardPile (gameState app') = discardPile (gameState app)
    /\ status (gameState app') = playing
    /\ winner (gameState app') = winner (gameState app)
    /\ pendingSuitChange (gameState app') = pendingSuitChange (gameState app)
    /\ currentSuit (gameState app') = currentSuit (gameState app)
    /\ skipTimers app' = skipTimers app.
Proof.
  intros Ht Hs Hd. cbn [dispatch]. unfold handleDrawCard.
  rewrite (notPlaying_false _ _ Ht Hs), Hd.
  eexists. split; [reflexivity|]. simpl. rewrite Hs. tauto.
Qed.

Lemma player_draw_witness :
  exists app',
    dispatch (mkApp heartsCalledGame 0) DrawCard = Some app'
    /\ deck (gameState app') = skipn 1 (deck heartsCalledGame)
    /\ playerHand (gameState app')
       = [card hearts r5; card clubs rJ] ++ [card hearts rA]
    /\ currentTurn (gameState app') = ai
    /\ aiHand (gameState app') = aiHand heartsCalledGame
    /\ discardPile (gameState app') = discardPile heartsCalledGame
    /\ status (gameState app') = playing
    /\ winner (gameState app') = None
    /\ pendingSuitChange (gameState app') = false
    /\ currentSuit (gameState app') = Some hearts
    /\ skipTimers app' = 0.
Proof.
  apply (player_draw (mkApp heartsCalledGame 0) (card hearts rA)
           (skipn 1 (deck heartsCalledGame))); reflexivity.
Defined.

(** X5. The page and the handlers agree.  A card of the hand is shown as
    playable exactly when a click on it updates the state, and as not
    playable exactly when [handlePlayCard] returns at once.  The Draw Card
    button is rendered exactly when [handleDrawCard] does not return at
    once.  The draw pile takes a click exactly when [handleDrawCard] draws
    a card; the skip-turn timer is armed exactly when the button is there
    and the deck is empty, a state in which the pile is not rendered. *)
Theorem playable_iff_handled (g : GameState) (c : Card) :
  match handCardPlayable g c with
  | Some true => exists u, handlePlayCard g c = Update u
  | Some false => handlePlayCard g c = Ignored
  | None => handlePlayCard g c = NoTopCard
  end
  /\ (drawPlayable g = true <-> handleDrawCard g <> Ignored)
  /\ (drawPilePlayable g = true <-> exists u, handleDrawCard g = Update u)
  /\ (handleDrawCard g = SkipLater
      <-> drawPlayable g = true /\ drawPilePlayable g = false).
Proof.
  unfold handCardPlayable, drawPlayable, drawPilePlayable, handlePlayCard,
    handleDrawCard, notPlaying.
  destruct (turn_eqb (currentTurn g) player && status_eqb (status g) playing)
    eqn:G.
  - apply andb_prop in G. destruct G as [-> ->]. simpl.
    split; [|split; [|split]].
    + destruct (topCard g) as [top|]; [|reflexivity].
      destruct (isValidMove c top (currentSuit g)); [|reflexivity].
      destruct (Nat.eqb _ 0); [|destruct (isEight c)]; eexists; reflexivity.
    + split; [|reflexivity]. intros _. destruct (deck g); discriminate.
    + rewrite andb_true_r. destruct (deck g); simpl; split.
      * discriminate.
      * intros [u Hu]. discriminate.
      * intros _. eexists. reflexivity.
      * reflexivity.
    + rewrite andb_true_r. destruct (deck g); simpl; split.
      * auto.
      * reflexivity.
      * discriminate.
      * intros [_ H]. discriminate.
  - assert (N : negb (turn_eqb (currentTurn g) player)
                || negb (status_eqb (status g) playing) = true).
    { destruct (turn_eqb _ _), (status_eqb _ _); simpl in *; congruence. }
    rewrite N, andb_false_r. split; [reflexivity|]. split; [|split].
    + split; [discriminate | congruence].
    + split; [discriminate | intros [u Hu]; discriminate].
    + split; [discriminate | intros [H _]; discriminate].
Qed.

(** X6. Outside a running game (while a suit is being selected, after the
    game is over, before the deal) a click on a card, a click on the draw
    pile and the AI's timer leave the component as it is; so do the two
    clicks on the AI's turn, and the AI's timer on the player's turn. *)
Theorem not_playing_is_ignored (app : App) (c : Card) :
  (status (gameState app) <> playing ->
   dispatch app (PlayCard c) = Some app
   /\ dispatch app DrawCard = Some app
   /\ dispatch app AiTimer = Some app)
  /\ (currentTurn (gameState app) = ai ->
      dispatch app (PlayCard c) = Some app
      /\ dispatch app DrawCard = Some app)
  /\ (currentTurn (gameState app) = player ->
      dispatch app AiTimer = Some app).
Proof.
  cbn [dispatch].
  unfold handlePlayCard, handleDrawCard, aiEffect, notPlaying.
  split; [|split].
  - intros Hs.
    destruct (status_eqb_spec (status (gameState app)) playing);
      [contradiction|].
    rewrite andb_false_r, orb_true_r. repeat split.
  - intros Ht. rewrite Ht. split; reflexivity.
  - intros Ht. rewrite Ht. reflexivity.
Qed.

Lemma not_playing_is_ignored_witness :
  (dispatch eightPlayed (PlayCard (card hearts r7)) = Some eightPlayed
   /\ dispatch eightPlayed DrawCard = Some eightPlayed
   /\ dispatch eightPlayed AiTimer = Some eightPlayed)
  /\ (dispatch heartsChosen (PlayCard (card hearts r7)) = Some heartsChosen
      /\ dispatch heartsChosen DrawCard = Some heartsChosen)
  /\ dispatch (mkApp sampleGame 0) AiTimer = Some (mkApp sampleGame 0).
Proof.
  split; [|split].
  - apply (proj1 (not_playing_is_ignored eightPlayed (card hearts r7))).
    vm_compute. discriminate.
  - apply (proj1 (proj2 (not_playing_is_ignored heartsChosen (card hearts r7)))).
    vm_compute. reflexivity.
  - apply (proj2 (proj2 (not_playing_is_ignored (mkApp sampleGame 0)
                           (card hearts r7)))).
    reflexivity.
Defined.

(** ** What a play does to the hand *)

Lemma ids_injective (l : list Card) (x y : Card) :
  NoDup (map id l) -> In x l -> In y l -> id x = id y -> x = y.
Proof.
  induction l as [|z l IH]; simpl; [tauto|].
  intros Hnd Hx Hy E. inversion Hnd as [|? ? Hz Hl]; subst.
  destruct Hx as [->|Hx], Hy as [->|Hy]; auto.
  - elim Hz. rewrite E. now apply in_map.
  - elim Hz. rewrite <- E. now apply in_map.
Qed.

Lemma otherThan_true_iff (c x : Card) : otherThan c x = true <-> id x <> id c.
Proof.
  unfold otherThan. destruct (String.eqb_spec (id x) (id c)); simpl;
    split; congruence.
Qed.

(** X7. An accepted play of a card held, from a hand of distinct ids, by
    the player or by the AI: exactly that card leaves the hand (the hand
    is one card shorter and holds the other cards, in their order), the
    card becomes the top card of the discard pile, and the deck and the
    other hand are not touched. *)
Theorem play_takes_one_card (who : Turn) (app : App) (c : Card) :
  accepted who (gameState app) c ->
  In c (actorHand who (gameState app)) ->
  NoDup (map id (actorHand who (gameState app))) ->
  exists app',
    dispatch app (playCard who c) = Some app'
    /\ length (actorHand who (gameState app')) + 1
       = length (actorHand who (gameState app))
    /\ (forall x, In x (actorHand who (gameState app'))
                  <-> In x (actorHand who (gameState app)) /\ x <> c)
    /\ actorHand who (gameState app')
       = filter (otherThan c) (actorHand who (gameState app))
    /\ topCard (gameState app') = Some c
    /\ discardPile (gameState app') = discardPile (gameState app) ++ [c]
    /\ deck (gameState app') = deck (gameState app)
    /\ actorHand (opponent who) (gameState app')
       = actorHand (opponent who) (gameState app).
Proof.
  intros Hacc Hin Hnd.
  destruct (accepted_play who app c Hacc) as (g' & E & Hd & Hh & Ho & Hp & _).
  exists (mkApp g' (skipTimers app)). cbn [gameState].
  split; [exact E|]. unfold topCard. rewrite Hh, Hp, Hd, Ho.
  pose proof (filter_otherThan_perm _ c Hnd Hin) as P.
  split; [apply Permutation_length in P; simpl in P; lia|].
  split; [|split; [reflexivity|]; split; [apply lastElement_snoc|]; tauto].
  intros x. rewrite filter_In, otherThan_true_iff. split.
  - intros [Hx Hf]. split; auto. intros ->. congruence.
  - intros [Hx Hne]. split; auto. intros E'. apply Hne.
    now apply (ids_injective _ x c Hnd).
Qed.

Lemma play_takes_one_card_witness :
  exists app',
    dispatch (mkApp heartsCalledGame 0) (PlayCard (card hearts r5)) = Some app'
    /\ length (playerHand (gameState app')) + 1 = 2
    /\ (forall x, In x (playerHand (gameState app'))
                  <-> In x [card hearts r5; card clubs rJ]
                      /\ x <> card hearts r5)
    /\ playerHand (gameState app') = [card clubs rJ]
    /\ topCard (gameState app') = Some (card hearts r5)
    /\ discardPile (gameState app')
       = [card clubs r9; card spades r8] ++ [card hearts r5]
    /\ deck (gameState app') = deck heartsCalledGame
    /\ aiHand (gameState app') = [card clubs r2; card diamonds r3].
Proof.
  apply (play_takes_one_card player (mkApp heartsCalledGame 0) (card hearts r5)).
  - split; [reflexivity|]. split; [reflexivity|].
    exists (card spades r8). split; reflexivity.
  - simpl. tauto.
  - apply distinct_NoDup. reflexivity.
Defined.

(** X8. [handlePlayCard] does not look for the card in the hand.  A legal
    card whose id no card of the hand carries is accepted all the same: the
    hand stays as it is, the card goes on the discard pile, and the session
    has one card more than before. *)
Theorem play_of_card_not_held (app : App) (c : Card) :
  accepted player (gameState app) c ->
  (forall x, In x (playerHand (gameState app)) -> id x <> id c) ->
  playerHand (gameState app) <> [] ->
  exists app',
    dispatch app (PlayCard c) = Some app'
    /\ playerHand (gameState app') = playerHand (gameState app)
    /\ discardPile (gameState app') = discardPile (gameState app) ++ [c]
    /\ length (allCards (gameState app'))
       = S (length (allCards (gameState app))).
Proof.
  intros Hacc Hnot Hne.
  destruct (accepted_play player app c Hacc) as (g' & E & Hd & Hh & Ho & Hp & _).
  exists (mkApp g' (skipTimers app)). cbn [gameState actorHand opponent] in *.
  assert (F : filter (otherThan c) (playerHand (gameState app))
              = playerHand (gameState app)).
  { apply forallb_filter_id. apply forallb_forall. intros x Hx.
    apply otherThan_true_iff. now apply Hnot. }
  rewrite F in Hh. split; [exact E|]. split; [exact Hh|]. split; [exact Hp|].
  unfold allCards. rewrite Hd, Hh, Ho, Hp, !length_app. simpl. lia.
Qed.

Lemma play_of_card_not_held_witness :
  exists app',
    dispatch (mkApp heartsCalledGame 0) (PlayCard (card hearts rQ)) = Some app'
    /\ playerHand (gameState app') = [card hearts r5; card clubs rJ]
    /\ discardPile (gameState app')
       = [card clubs r9; card spades r8] ++ [card hearts rQ]
    /\ length (allCards (gameState app')) = 53.
Proof.
  apply (play_of_card_not_held (mkApp heartsCalledGame 0) (card hearts rQ)).
  - split; [reflexivity|]. split; [reflexivity|].
    exists (card spades r8). split; reflexivity.
  - intros x [<-|[<-|[]]]; discriminate.
  - discriminate.
Defined.

(** ** The AI's turn as a whole *)

(** X9. The AI never keeps the turn and never opens the suit picker.  Its
    timer, on its turn in a running game with a top card, either ends the
    game (the AI has played its last card and is the winner) or leaves the
    game running with the player to move; the player's hand, the winner of
    a game that goes on, the pending flag and the armed timers are not
    touched. *)
Theorem ai_turn_outcome (app : App) (top : Card) :
  currentTurn (gameState app) = ai ->
  status (gameState app) = playing ->
  topCard (gameState app) = Some top ->
  exists app',
    dispatch app AiTimer = Some app'
    /\ playerHand (gameState app') = playerHand (gameState app)
    /\ pendingSuitChange (gameState app') = pendingSuitChange (gameState app)
    /\ skipTimers app' = skipTimers app
    /\ ((status (gameState app') = game_over
         /\ winner (gameState app') = Some ai
         /\ aiHand (gameState app') = []
         /\ currentTurn (gameState app') = ai)
        \/ (status (gameState app') = playing
            /\ winner (gameState app') = winner (gameState app)
            /\ currentTurn (gameState app') = player)).
Proof.
  intros Ht Hs Htop. cbn [dispatch].
  rewrite (aiEffect_armed _ Ht Hs). unfold aiMove. rewrite Htop.
  destruct (cardToPlay _) as [c|].
  - destruct (filter (otherThan c) _) as [|x l] eqn:F; simpl Nat.eqb; cbv iota;
      [|destruct (isEight c)]; (eexists; split; [reflexivity|]);
      simpl; rewrite ?F, ?Ht, ?Hs; tauto.
  - destruct (deck (gameState app)); (eexists; split; [reflexivity|]);
      simpl; rewrite ?Hs; tauto.
Qed.

Lemma ai_turn_outcome_witness :
  exists app',
    dispatch (mkApp aiEightGame 0) AiTimer = Some app'
    /\ playerHand (gameState app') = [card hearts r5; card clubs rJ]
    /\ pendingSuitChange (gameState app') = false
    /\ skipTimers app' = 0
    /\ ((status (gameState app') = game_over
         /\ winner (gameState app') = Some ai
         /\ aiHand (gameState app') = []
         /\ currentTurn (gameState app') = ai)
        \/ (status (gameState app') = playing
            /\ winner (gameState app') = None
            /\ currentTurn (gameState app') = player)).
Proof.
  apply (ai_turn_outcome (mkApp aiEightGame 0) (card spades rK)); reflexivity.
Defined.

(** ** Timers and deals *)

(** X12. A new deal does not disarm a skip-turn timer.  With a timer armed,
    a deal followed by the timer gives the freshly dealt session, but with
    the AI to move instead of the player. *)
Theorem skip_timer_outlives_deal (app : App) (n : nat) (fullDeck : list Card) :
  skipTimers app = S n ->
  Permutation fullDeck createDeck ->
  exists s app',
    initGame fullDeck = Some s
    /\ run app [Reset fullDeck; SkipTimer] = Some app'
    /\ currentTurn s = player
    /\ currentTurn (gameState app') = ai
    /\ status (gameState app') = playing
    /\ deck (gameState app') = deck s
    /\ playerHand (gameState app') = playerHand s
    /\ aiHand (gameState app') = aiHand s
    /\ discardPile (gameState app') = discardPile s
    /\ skipTimers app' = n.
Proof.
  intros Hn P.
  destruct (initGame_shuffled fullDeck P)
    as (s & top & E & _ & _ & _ & _ & _ & _ & Ht & Hs & _).
  exists s. cbn [run dispatch]. rewrite E. cbn [skipTimers]. rewrite Hn.
  eexists. split; [reflexivity|]. split; [reflexivity|]. simpl.
  rewrite Hs. tauto.
Qed.

Lemma skip_timer_outlives_deal_witness :
  exists s app',
    initGame createDeck = Some s
    /\ run (mkApp (emptyDeckGame player) 1) [Reset createDeck; SkipTimer]
       = Some app'
    /\ currentTurn s = player
    /\ currentTurn (gameState app') = ai
    /\ status (gameState app') = playing
    /\ deck (gameState app') = deck s
    /\ playerHand (gameState app') = playerHand s
    /\ aiHand (gameState app') = aiHand s
    /\ discardPile (gameState app') = discardPile s
    /\ skipTimers app' = 0.
Proof.
  apply (skip_timer_outlives_deal (mkApp (emptyDeckGame player) 1) 0 createDeck).
  - reflexivity.
  - apply Permutation_refl.
Defined.

(** ** The tally and the tie-break *)

Lemma getCount_setCount (acc : SuitCounts) (k k' : Suit) (v : nat) :
  getCount (setCount acc k v) k'
  = if suit_eqb k k' then Some v else getCount acc k'.
Proof.
  induction acc as [|[k0 n] acc IH]; simpl.
  - now destruct (suit_eqb k k').
  - destruct (suit_eqb_spec k0 k) as [->|Hk]; simpl.
    + destruct (suit_eqb_spec k k'); reflexivity.
    + destruct (suit_eqb_spec k0 k') as [->|Hk']; [|exact IH].
      destruct (suit_eqb_spec k k'); [congruence | reflexivity].
Qed.

Lemma getCount_none_iff (acc : SuitCounts) (k : Suit) :
  getCount acc k = None <-> ~ In k (objectKeys acc).
Proof.
  induction acc as [|[k0 n] acc IH]; simpl; [tauto|].
  destruct (suit_eqb_spec k0 k); [split; [discriminate | tauto]|].
  rewrite IH. tauto.
Qed.

Lemma keys_setCount (acc : SuitCounts) (k : Suit) (v : nat) :
  objectKeys (setCount acc k v)
  = match getCount acc k with
    | Some _ => objectKeys acc
    | None => objectKeys acc ++ [k]
    end.
Proof.
  induction acc as [|[k0 n] acc IH]; simpl; [reflexivity|].
  destruct (suit_eqb_spec k0 k); simpl; [reflexivity|].
  rewrite IH. now destruct (getCount acc k).
Qed.

Lemma keys_tallyFrom_prefix (hand : list Card) (acc : SuitCounts) :
  exists more, objectKeys (tallyFrom acc hand) = objectKeys acc ++ more.
Proof.
  revert acc. induction hand as [|c hand IH]; intros acc.
  - exists []. now rewrite app_nil_r.
  - change (tallyFrom acc (c :: hand))
      with (tallyFrom (setCount acc (suit c)
                         (orZero (getCount acc (suit c)) + 1)) hand).
    destruct (IH (setCount acc (suit c) (orZero (getCount acc (suit c)) + 1)))
      as [more E].
    rewrite E, keys_setCount. destruct (getCount acc (suit c)).
    + now exists more.
    + exists (suit c :: more). now rewrite <- app_assoc.
Qed.

Lemma keys_tallyFrom_in (hand : list Card) (acc : SuitCounts) (k : Suit) :
  In k (objectKeys (tallyFrom acc hand))
  <-> In k (objectKeys acc) \/ exists c, In c hand /\ suit c = k.
Proof.
  revert acc. induction hand as [|c hand IH]; intros acc.
  - simpl. split; [tauto|]. intros [H|(c & [] & _)]. exact H.
  - change (tallyFrom acc (c :: hand))
      with (tallyFrom (setCount acc (suit c)
                         (orZero (getCount acc (suit c)) + 1)) hand).
    rewrite IH, keys_setCount.
    destruct (getCount acc (suit c)) eqn:G.
    + assert (Hc : In (suit c) (objectKeys acc)).
      { destruct (in_dec (fun a b => reflect_dec _ _ (suit_eqb_spec a b))
                    (suit c) (objectKeys acc)) as [H|H]; auto.
        apply getCount_none_iff in H. congruence. }
      split.
      * intros [H|(x & Hx & E)]; auto. right. exists x. simpl. auto.
      * intros [H|(x & [<-|Hx] & E)]; auto.
        -- left. now rewrite <- E.
        -- right. now exists x.
    + rewrite in_app_iff. simpl. split.
      * intros [[H|[<-|[]]]|(x & Hx & E)]; auto.
        -- right. exists c. auto.
        -- right. exists x. auto.
      * intros [H|(x & [<-|Hx] & E)]; auto.
        right. now exists x.
Qed.

Lemma keys_tallyFrom_NoDup (hand : list Card) (acc : SuitCounts) :
  NoDup (objectKeys acc) -> NoDup (objectKeys (tallyFrom acc hand)).
Proof.
  revert acc. induction hand as [|c hand IH]; intros acc Hnd; [exact Hnd|].
  change (tallyFrom acc (c :: hand))
    with (tallyFrom (setCount acc (suit c)
                       (orZero (getCount acc (suit c)) + 1)) hand).
  apply IH. rewrite keys_setCount. destruct (getCount acc (suit c)) eqn:G; auto.
  apply getCount_none_iff in G.
  apply NoDup_app; auto; [repeat constructor; intros [] |].
  intros x Hx [<-|[]]. contradiction.
Qed.

Lemma countSuit_pos_iff (s : Suit) (hand : list Card) :
  0 < countSuit s hand <-> exists c, In c hand /\ suit c = s.
Proof.
  unfold countSuit. induction hand as [|x hand IH]; simpl.
  - split; [lia | intros (c & [] & _)].
  - destruct (suit_eqb_spec (suit x) s) as [E|N]; simpl.
    + split; [|lia]. intros _. exists x. auto.
    + rewrite IH. split.
      * intros (c & Hc & E). exists c. auto.
      * intros (c & [<-|Hc] & E); [contradiction|]. now exists c.
Qed.

(** X10. The tally the AI builds over a hand has one key per suit present
    in the hand, no key twice, and under each key the number of cards of
    that suit; a suit that is not in the hand is not a key. *)
Theorem tally_counts_suits (hand : list Card) (s : Suit) :
  getCount (tally hand) s
  = (if Nat.eqb (countSuit s hand) 0 then None else Some (countSuit s hand))
  /\ (In s (objectKeys (tally hand)) <-> exists c, In c hand /\ suit c = s)
  /\ NoDup (objectKeys (tally hand)).
Proof.
  assert (K : In s (objectKeys (tally hand))
              <-> exists c, In c hand /\ suit c = s).
  { change (tally hand) with (tallyFrom [] hand).
    rewrite keys_tallyFrom_in. simpl. tauto. }
  split; [|split; [exact K|]].
  - pose proof (count_tally hand s) as C. unfold count in C.
    destruct (getCount (tally hand) s) as [v|] eqn:G.
    + rewrite orZero_some in C. subst v.
      assert (P : 0 < countSuit s hand).
      { apply countSuit_pos_iff, K.
        destruct (in_dec (fun a b => reflect_dec _ _ (suit_eqb_spec a b))
                    s (objectKeys (tally hand))) as [H|H]; auto.
        apply getCount_none_iff in H. congruence. }
      destruct (Nat.eqb_spec (countSuit s hand) 0); [lia | reflexivity].
    + simpl in C. now rewrite <- C.
  - change (tally hand) with (tallyFrom [] hand).
    apply keys_tallyFrom_NoDup. constructor.
Qed.

Example tally_two_suits :
  tally [card spades r2; card diamonds r3; card spades r4]
  = [(spades, 2); (diamonds, 1)].
Proof. reflexivity. Qed.

(** The sorted keys start with the first key of greatest count: the keys in
    front of it have fewer cards. *)
Lemma arraySort_head_first (acc : SuitCounts) (keys : list Suit) :
  keys <> [] ->
  exists h l1 l2,
    nth_error (arraySort (byCountDesc acc) keys) 0 = Some h
    /\ keys = l1 ++ h :: l2
    /\ (forall k, In k l1 -> count acc k < count acc h)
    /\ (forall k, In k keys -> count acc k <= count acc h).
Proof.
  induction keys as [|x keys IH]; [congruence|]. intros _.
  destruct keys as [|y keys].
  - exists x, [], []. simpl. repeat split; auto.
    + intros k [].
    + intros k [<-|[]]. lia.
  - destruct IH as (h & l1 & l2 & Hh & Hk & Hlt & Hmax); [discriminate|].
    cbn [arraySort] in *.
    destruct (sortInsert _ y _) as [|h' sorted]; [discriminate|].
    injection Hh as ->. cbn [sortInsert]. unfold byCountDesc at 1.
    fold (count acc h) (count acc x).
    destruct (Z.leb_spec (Z.of_nat (count acc h) - Z.of_nat (count acc x)) 0).
    + exists x, [], (y :: keys). repeat split; auto.
      * intros k [].
      * intros k [<-|Hk']; [lia|]. specialize (Hmax k Hk'). lia.
    + exists h, (x :: l1), l2. rewrite Hk. repeat split; auto.
      * intros k [<-|Hk']; [lia | now apply Hlt].
      * intros k [<-|Hk']; [lia|]. apply Hmax. now rewrite Hk.
Qed.

Lemma first_with_suit (s : Suit) (hand : list Card) :
  (exists c, In c hand /\ suit c = s) ->
  exists before c after,
    hand = before ++ c :: after /\ suit c = s
    /\ forall y, In y before -> suit y <> s.
Proof.
  induction hand as [|x hand IH]; intros (c & Hin & E); [easy|].
  destruct (suit_eqb_spec (suit x) s) as [Ex|Nx].
  - exists [], x, hand. split; [reflexivity|]. split; [exact Ex|].
    intros y [].
  - destruct Hin as [->|Hin]; [contradiction|].
    destruct IH as (b & c' & a & -> & Ec & Hb); [now exists c|].
    exists (x :: b), c', a. split; [reflexivity|]. split; [exact Ec|].
    intros y [<-|Hy]; auto.
Qed.

Lemma NoDup_split_unique {A} (a a' b b' : list A) (x : A) :
  NoDup (a ++ x :: b) -> a ++ x :: b = a' ++ x :: b' -> a = a'.
Proof.
  revert a'. induction a as [|y a IH]; intros [|y' a'] Hnd E; simpl in *; auto.
  - injection E as <- E. inversion Hnd as [|? ? Hx _]; subst.
    elim Hx. apply in_or_app. right. now left.
  - injection E as -> E. inversion Hnd as [|? ? Hx _]; subst.
    elim Hx. apply in_or_app. right. now left.
  - injection E as -> E. inversion Hnd; subst. f_equal. now apply IH.
Qed.

(** X11. The tie-break of the AI's suit choice.  On a hand that is not
    empty the suit the AI calls is the suit of the first card of the hand
    whose suit has the greatest count: every card in front of it is of a
    suit with fewer cards in the hand. *)
Theorem bestSuit_first_seen (hand : list Card) :
  hand <> [] ->
  exists before c after,
    hand = before ++ c :: after
    /\ bestSuit hand = suit c
    /\ (forall y, In y before ->
          countSuit (suit y) hand < countSuit (suit c) hand)
    /\ (forall s, countSuit s hand <= countSuit (suit c) hand).
Proof.
  intros Hne.
  destruct (bestSuit_most_frequent hand Hne) as (h & Hm & Hb & Hpos & Hmax).
  assert (Hkeys : objectKeys (tally hand) <> []).
  { intros E. unfold mostFrequentSuit in Hm. rewrite E in Hm. discriminate. }
  destruct (arraySort_head_first (tally hand) _ Hkeys)
    as (h' & l1 & l2 & Hh & Hk & Hlt & _).
  unfold mostFrequentSuit in Hm. rewrite Hh in Hm. injection Hm as ->.
  destruct (first_with_suit h hand) as (before & c & after & Eh & Ec & Hbefore);
    [now apply countSuit_pos_iff|].
  exists before, c, after. rewrite Ec, Hb. repeat split; auto.
  intros y Hy. rewrite <- !count_tally. apply Hlt.
  (* the keys seen before [c] are the keys in front of [h] *)
  assert (Hpre : exists more,
             objectKeys (tally hand)
             = objectKeys (tallyFrom [] before) ++ h :: more).
  { change (tally hand) with (tallyFrom [] hand). rewrite Eh.
    unfold tallyFrom at 1. rewrite fold_left_app. fold (tallyFrom [] before).
    cbn [fold_left].
    destruct (keys_tallyFrom_prefix after
                (setCount (tallyFrom [] before) (suit c)
                   (orZero (getCount (tallyFrom [] before) (suit c)) + 1)))
      as [more E].
    unfold tallyFrom at 1 in E. rewrite E, keys_setCount, Ec.
    assert (G : getCount (tallyFrom [] before) h = None).
    { apply getCount_none_iff. rewrite keys_tallyFrom_in.
      intros [[]|(z & Hz & Ez)]. now apply (Hbefore z). }
    rewrite G. exists more. now rewrite <- app_assoc. }
  destruct Hpre as [more Hpre].
  assert (Hnd : NoDup (objectKeys (tally hand))).
  { change (tally hand) with (tallyFrom [] hand).
    apply keys_tallyFrom_NoDup. constructor. }
  assert (El : objectKeys (tallyFrom [] before) = l1).
  { apply (NoDup_split_unique _ _ more l2 h).
    - now rewrite <- Hpre.
    - now rewrite <- Hpre, <- Hk. }
  rewrite <- El. apply keys_tallyFrom_in. right. now exists y.
Qed.

Lemma bestSuit_first_seen_witness :
  exists before c after,
    [card spades r2; card diamonds r3; card spades r4; card diamonds r5]
    = before ++ c :: after
    /\ bestSuit
         [card spades r2; card diamonds r3; card spades r4; card diamonds r5]
       = suit c
    /\ (forall y, In y before ->
          countSuit (suit y)
            [card spades r2; card diamonds r3; card spades r4; card diamonds r5]
          < countSuit (suit c)
              [card spades r2; card diamonds r3; card spades r4;
               card diamonds r5])
    /\ (forall s,
          countSuit s
            [card spades r2; card diamonds r3; card spades r4; card diamonds r5]
          <= countSuit (suit c)
               [card spades r2; card diamonds r3; card spades r4;
                card diamonds r5]).
Proof.
  apply (bestSuit_first_seen
           [card spades r2; card diamonds r3; card spades r4; card diamonds r5]).
  discriminate.
Defined.

(** ** Sessions driven through the page *)

Lemma handCardPlayable_true (g : GameState) (c : Card) :
  handCardPlayable g c = Some true ->
  currentTurn g = player /\ status g = playing
  /\ exists top, topCard g = Some top
                 /\ isValidMove c top (currentSuit g) = true.
Proof.
  unfold handCardPlayable.
  destruct (turn_eqb_spec (currentTurn g) player); [|discriminate].
  destruct (status_eqb_spec (status g) playing); [|discriminate].
  simpl. destruct (topCard g) as [top|]; [|discriminate].
  intros H. injection H as H. split; [assumption|]. split; [assumption|].
  now exists top.
Qed.

Lemma drawPlayable_true (g : GameState) :
  drawPlayable g = true -> currentTurn g = player /\ status g = playing.
Proof.
  unfold drawPlayable.
  destruct (turn_eqb_spec (currentTurn g) player); [|discriminate].
  destruct (status_eqb_spec (status g) playing); [|discriminate].
  auto.
Qed.

Lemma shown_offered (app : App) (a : Action) : shown app a -> offered app a.
Proof. destruct a; simpl; tauto. Qed.

Lemma Played_Reachable (app : App) : Played app -> Reachable app.
Proof.
  induction 1 as [|app a app' _ IH Hs E]; [constructor|].
  apply (reach_step app a); auto. now apply shown_offered.
Qed.

(** From a dealt session every action on offer is carried out and leaves a
    dealt session. *)
Lemma dealt_step (app : App) (a : Action) :
  dealt (gameState app) -> offered app a ->
  exists app', dispatch app a = Some app' /\ dealt (gameState app').
Proof.
  intros Hd Hoff.
  destruct a as [c|  |s|fullDeck|  |]; cbn [dispatch offered] in *.
  - apply commit_establishes; auto. now apply handlePlayCard_dealt.
  - apply commit_establishes; auto. now apply handleDrawCard_dealt.
  - apply commit_establishes; auto.
  - destruct (initGame_fullDeckInv fullDeck Hoff) as (s & -> & Hs & Hn & _).
    eexists. split; [reflexivity|]. split; assumption.
  - apply commit_establishes; auto. unfold aiEffect.
    destruct (_ && _); [now apply aiMove_dealt | exact I].
  - destruct (skipTimers app) as [|n]; [lia|].
    eexists. split; [reflexivity|]. exact Hd.
Qed.

Lemma sound_running (g : GameState) :
  dealt g -> status g = playing \/ status g = suit_selection ->
  winner g = None -> playerHand g <> [] -> aiHand g <> [] ->
  (status g = suit_selection -> topIsEight g) ->
  (currentSuit g <> None -> topIsEight g) ->
  sound g.
Proof.
  intros Hd [Hs|Hs] Hw Hp Ha H1 H2; split; auto; rewrite Hs; auto.
Qed.

Lemma sound_over (g : GameState) (w : Turn) :
  dealt g -> status g = game_over -> winner g = Some w ->
  actorHand w g = [] -> actorHand (opponent w) g <> [] ->
  sound g.
Proof.
  intros Hd Hs Hw Hh Ho. split; auto. rewrite Hs. now exists w.
Qed.

Lemma sound_playing (g : GameState) :
  sound g -> status g = playing ->
  winner g = None /\ playerHand g <> [] /\ aiHand g <> []
  /\ (currentSuit g <> None -> topIsEight g).
Proof. intros [_ H] Hs. now rewrite Hs in H. Qed.

Lemma topIsEight_snoc (g : GameState) (l : list Card) (c : Card) :
  discardPile g = l ++ [c] -> isEight c = true -> topIsEight g.
Proof.
  intros E H. exists c. unfold topCard. rewrite E.
  split; [apply lastElement_snoc | now apply isEight_true_iff].
Qed.

Lemma topIsEight_same (g g' : GameState) :
  discardPile g' = discardPile g -> topIsEight g -> topIsEight g'.
Proof. unfold topIsEight, topCard. now intros ->. Qed.

(** An accepted play from a sound running session leaves a sound session. *)
Lemma play_sound (who : Turn) (app : App) (c : Card) :
  sound (gameState app) -> accepted who (gameState app) c ->
  offered app (playCard who c) ->
  exists app', dispatch app (playCard who c) = Some app'
               /\ sound (gameState app').
Proof.
  intros Hsound Hacc Hoff.
  destruct (dealt_step app (playCard who c) (proj1 Hsound) Hoff)
    as (app' & E & Hd).
  exists app'. split; [exact E|].
  destruct (accepted_play who app c Hacc)
    as (g' & E' & _ & Hh & Ho & Hp & Hwin & Hplain & Height).
  rewrite E in E'. injection E' as ->. cbn [gameState] in *.
  destruct Hacc as (Ht & Hs & _).
  destruct (sound_playing _ Hsound Hs) as (Hw & Hph & Hah & _).
  assert (Hopp : actorHand (opponent who) g' <> [])
    by (rewrite Ho; now destruct who).
  destruct (filter (otherThan c) (actorHand who (gameState app)))
    as [|x l] eqn:F.
  - destruct (Hwin eq_refl) as (Hs' & Hw' & _).
    now apply (sound_over g' who).
  - assert (Hne : x :: l <> []) by discriminate.
    assert (Hown : actorHand who g' <> []) by now rewrite Hh.
    assert (Hhands : playerHand g' <> [] /\ aiHand g' <> [])
      by (destruct who; auto).
    destruct Hhands as [Hp' Ha'].
    destruct (isEight c) eqn:E8.
    + destruct (Height Hne eq_refl) as (Hw' & Hrest).
      assert (Htop : topIsEight g')
        by now apply (topIsEight_snoc g' (discardPile (gameState app)) c).
      destruct who; destruct Hrest as (Hs' & _).
      * apply sound_running; auto; congruence.
      * apply sound_running; auto; [left|]; congruence.
    + destruct (Hplain Hne eq_refl) as (Hs' & Hw' & _ & _ & Hsuit).
      apply sound_running; auto; try congruence. left. congruence.
Qed.

Lemma firstn_not_nil {A} (n : nat) (l : list A) :
  0 < n -> l <> [] -> firstn n l <> [].
Proof. destruct n, l; simpl; try lia; congruence. Qed.

(** A deal from a shuffle is a sound session. *)
Lemma initGame_sound (fullDeck : list Card) :
  Permutation fullDeck createDeck ->
  exists s, initGame fullDeck = Some s /\ sound s.
Proof.
  intros P.
  destruct (initGame_fullDeckInv fullDeck P) as (s & E & Hinv & Hn & _).
  destruct (initGame_deal fullDeck (shuffled_remainder _ P))
    as (i & top & _ & _ & E').
  exists s. split; [exact E|]. rewrite E in E'.
  assert (Es := f_equal (fun o => match o with Some x => x | None => s end) E').
  cbn beta iota in Es. subst s.
  assert (L : length fullDeck = 52)
    by now rewrite (Permutation_length P), createDeck_length.
  apply sound_running.
  - split; assumption.
  - left. reflexivity.
  - reflexivity.
  - cbn [playerHand]. apply firstn_not_nil; [lia|]. intros ->. discriminate.
  - cbn [aiHand]. apply firstn_not_nil; [lia|]. intros H.
    apply (f_equal (@length Card)) in H. rewrite length_skipn in H.
    simpl in H. lia.
  - cbn [status]. discriminate.
  - cbn [currentSuit]. congruence.
Qed.

Lemma sound_selecting (g : GameState) :
  sound g -> status g = suit_selection ->
  winner g = None /\ playerHand g <> [] /\ aiHand g <> [] /\ topIsEight g.
Proof. intros [_ H] Hs. now rewrite Hs in H. Qed.

(** [sound] looks at the piles, the status, the winner and the override
    only. *)
Lemma sound_frame (g g' : GameState) :
  deck g' = deck g -> playerHand g' = playerHand g -> aiHand g' = aiHand g ->
  discardPile g' = discardPile g -> status g' = status g ->
  winner g' = winner g -> currentSuit g' = currentSuit g ->
  sound g -> sound g'.
Proof.
  intros Hd Hp Ha Hdp Hs Hw Hc [[Hinv Hne] H].
  assert (Hact : forall w, actorHand w g' = actorHand w g)
    by (intros []; simpl; auto).
  assert (Htop : topIsEight g -> topIsEight g')
    by now apply topIsEight_same.
  split.
  - split; [|now rewrite Hdp].
    unfold fullDeckInv, allCards in *. now rewrite Hd, Hp, Ha, Hdp.
  - rewrite Hs, Hw, Hp, Ha, Hc. destruct (status g).
    + contradiction.
    + destruct H as (H1 & H2 & H3 & H4). repeat split; auto.
    + destruct H as (H1 & H2 & H3 & H4). repeat split; auto.
    + destruct H as (w & H1 & H2 & H3). exists w. rewrite !Hact. auto.
Qed.

(** From a sound session every action the page shows is carried out and
    leaves a sound session. *)
Lemma sound_step (app : App) (a : Action) :
  sound (gameState app) -> shown app a ->
  exists app', dispatch app a = Some app' /\ sound (gameState app').
Proof.
  intros Hsound Hshown. pose proof (proj1 Hsound) as Hd.
  destruct a as [c|  |s|fullDeck|  |]; cbn [shown] in Hshown.
  - destruct Hshown as [Hin Hp].
    apply handCardPlayable_true in Hp. destruct Hp as (Ht & Hs & Htop).
    apply (play_sound player); auto. split; auto.
  - apply drawPlayable_true in Hshown. destruct Hshown as [Ht Hs].
    destruct (sound_playing _ Hsound Hs) as (Hw & Hph & Hah & Hov).
    cbn [dispatch]. unfold handleDrawCard.
    rewrite (notPlaying_false _ _ Ht Hs).
    destruct (deck (gameState app)) as [|x d] eqn:Ed.
    + eexists. split; [reflexivity|]. exact Hsound.
    + destruct (dealt_step app DrawCard Hd I) as (app' & E & Hd').
      cbn [dispatch] in E. unfold handleDrawCard in E.
      rewrite (notPlaying_false _ _ Ht Hs), Ed in E.
      exists app'. split; [exact E|]. injection E as <-.
      apply sound_running; cbn [gameState status winner playerHand aiHand
                                currentSuit] in *;
        first [ assumption | now left | apply snoc_not_nil
              | (rewrite Hs; discriminate)
              | (intros Hc; apply (topIsEight_same (gameState app)); auto) ].
  - unfold suitPickerShown in Hshown.
    destruct (status_eqb_spec (status (gameState app)) suit_selection)
      as [Hs|]; [|discriminate].
    destruct (sound_selecting _ Hsound Hs) as (Hw & Hph & Hah & Htop).
    eexists. split; [reflexivity|].
    apply sound_running; cbn [gameState status winner playerHand aiHand
                              currentSuit];
      first [ assumption | now left | discriminate
            | (intros _; apply (topIsEight_same (gameState app)); auto) ].
  - destruct (initGame_sound fullDeck Hshown) as (s & E & Hs).
    cbn [dispatch]. rewrite E. eexists. split; [reflexivity|]. exact Hs.
  - cbn [dispatch]. unfold aiEffect.
    destruct (turn_eqb_spec (currentTurn (gameState app)) ai) as [Ht|];
      [|now exists app].
    destruct (status_eqb_spec (status (gameState app)) playing) as [Hs|];
      [|now exists app].
    cbn [andb].
    destruct (sound_playing _ Hsound Hs) as (Hw & Hph & Hah & Hov).
    destruct (topCard_some _ (proj2 Hd)) as [top Htop].
    destruct (cardToPlay (playableCards (gameState app) top)) as [c|] eqn:Ec.
    + destruct (play_sound ai app c Hsound) as (app' & E & Hs'); [|exact I|].
      * split; auto. split; auto. now exists top.
      * cbn [playCard dispatch] in E. unfold aiEffect in E.
        rewrite Ht, Hs in E. now exists app'.
    + destruct (dealt_step app AiTimer Hd I) as (app' & E & Hd').
      cbn [dispatch] in E. unfold aiEffect in E. rewrite Ht, Hs in E.
      cbn [turn_eqb status_eqb andb] in E.
      exists app'. split; [exact E|].
      unfold aiMove in E. rewrite Htop, Ec in E.
      destruct (deck (gameState app)) as [|x d]; injection E as <-.
      * apply (sound_frame (gameState app)); auto.
      * apply sound_running; cbn [gameState status winner playerHand aiHand
                                  currentSuit] in *;
          first [ assumption | now left | apply snoc_not_nil
                | (rewrite Hs; discriminate)
                | (intros Hc; apply (topIsEight_same (gameState app)); auto) ].
  - cbn [dispatch]. destruct (skipTimers app) as [|n]; [lia|].
    eexists. split; [reflexivity|].
    apply (sound_frame (gameState app)); auto.
Qed.

(** A session driven through the page is at the mount or sound. *)
Lemma played_sound (app : App) :
  Played app -> app = mkApp initialState 0 \/ sound (gameState app).
Proof.
  induction 1 as [|app a app' Hp IH Hshown E]; [now left|].
  destruct IH as [->|Hsound].
  - destruct a as [c|  |s|fullDeck|  |]; cbn [shown gameState] in Hshown.
    + destruct Hshown as [[] _].
    + discriminate.
    + discriminate.
    + right. destruct (initGame_sound fullDeck Hshown) as (s & Es & Hs).
      cbn [dispatch] in E. rewrite Es in E. now injection E as <-.
    + left. cbn in E. now injection E as <-.
    + cbn in Hshown. lia.
  - right. destruct (sound_step app a Hsound Hshown) as (app1 & E1 & H1).
    rewrite E in E1. now injection E1 as <-.
Qed.

Lemma shownAll_cons (app app' : App) (a : Action) (rest : list Action) :
  shown app a -> dispatch app a = Some app' -> shownAll app' rest ->
  shownAll app (a :: rest).
Proof. intros Ha E Hrest. simpl. now rewrite E. Qed.

Ltac show_action :=
  eapply shownAll_cons;
  [ cbn [shown];
    first [ exact I | apply Permutation_refl
          | (split; [simpl; tauto | vm_compute; reflexivity])
          | (vm_compute; reflexivity) ]
  | vm_compute; reflexivity
  | ].

Lemma run_played (actions : list Action) (app : App) :
  Played app -> shownAll app actions ->
  exists app', run app actions = Some app' /\ Played app'.
Proof.
  revert app. induction actions as [|a rest IH]; intros app Hp Hs; simpl in *.
  - now exists app.
  - destruct Hs as [Ha Hrest]. destruct (dispatch app a) as [app1|] eqn:E; [|easy].
    apply IH; auto. now apply (played_step app a).
Qed.

Lemma matchPoint_played : Played matchPoint.
Proof.
  destruct (run_played heartsGame (mkApp initialState 0)) as (app & E & H).
  - constructor.
  - unfold heartsGame. repeat show_action. exact I.
  - unfold matchPoint. now rewrite E.
Qed.

Lemma eightPlayed_played : Played eightPlayed.
Proof.
  destruct (run_played [Reset createDeck; PlayCard (card hearts r8)]
              (mkApp initialState 0)) as (app & E & H).
  - constructor.
  - repeat show_action. exact I.
  - unfold eightPlayed. now rewrite E.
Qed.

(** X13. Invariants 1 and 2 of the data model, for a session driven
    through the controls the page shows: before the first deal the state is
    the one the component is mounted with, and from the first deal on the
    four piles are a rearrangement of the 52 cards, without duplicate, and
    the discard pile is not empty. *)
Theorem played_session_is_dealt (app : App) :
  Played app ->
  (status (gameState app) = dealing -> gameState app = initialState)
  /\ (status (gameState app) <> dealing ->
      Permutation (allCards (gameState app)) createDeck
      /\ NoDup (allCards (gameState app))
      /\ discardPile (gameState app) <> []).
Proof.
  intros Hp. destruct (played_sound app Hp) as [->|[[Hinv Hne] Hst]].
  - split; [reflexivity|]. intros H. now elim H.
  - split.
    + intros Hs. rewrite Hs in Hst. contradiction.
    + intros _. repeat split; auto.
      apply (Permutation_NoDup (l := createDeck)); [now symmetry|].
      apply (NoDup_map_inv id). apply createDeck_ids.
Qed.

Lemma played_session_is_dealt_witness :
  (status (gameState matchPoint) = dealing ->
   gameState matchPoint = initialState)
  /\ (status (gameState matchPoint) <> dealing ->
      Permutation (allCards (gameState matchPoint)) createDeck
      /\ NoDup (allCards (gameState matchPoint))
      /\ discardPile (gameState matchPoint) <> []).
Proof.
  apply (played_session_is_dealt matchPoint). exact matchPoint_played.
Defined.

(** X14. Invariant 4 of the data model, for a session driven through the
    page: the status is game_over exactly when there is a winner, and from
    the first deal on a side is the winner exactly when its hand is empty
    (so while the game runs both hands hold cards). *)
Theorem winner_iff_empty_hand (app : App) :
  Played app ->
  (status (gameState app) = game_over <-> winner (gameState app) <> None)
  /\ forall w,
       winner (gameState app) = Some w
       <-> status (gameState app) <> dealing
           /\ actorHand w (gameState app) = [].
Proof.
  intros Hp. destruct (played_sound app Hp) as [->|[_ Hst]].
  - simpl. split; [split; [discriminate | congruence]|].
    intros w. split; [discriminate | intros [H _]; now elim H].
  - destruct (status (gameState app)).
    + contradiction.
    + destruct Hst as (Hw & Hph & Hah & _). rewrite Hw. split.
      * split; [discriminate | congruence].
      * intros w. split; [discriminate|]. intros [_ H]. now destruct w.
    + destruct Hst as (Hw & Hph & Hah & _). rewrite Hw. split.
      * split; [discriminate | congruence].
      * intros w. split; [discriminate|]. intros [_ H]. now destruct w.
    + destruct Hst as (w0 & Hw & Hh & Ho). rewrite Hw. split.
      * split; [discriminate | reflexivity].
      * intros w. split.
        -- intros E. injection E as <-. split; [discriminate | exact Hh].
        -- intros [_ H]. destruct w0, w; simpl in *; congruence.
Qed.

Lemma winner_iff_empty_hand_witness :
  (status (gameState matchPoint) = game_over
   <-> winner (gameState matchPoint) <> None)
  /\ forall w,
       winner (gameState matchPoint) = Some w
       <-> status (gameState matchPoint) <> dealing
           /\ actorHand w (gameState matchPoint) = [].
Proof.
  apply (winner_iff_empty_hand matchPoint). exact matchPoint_played.
Defined.

(** X15. Invariant 3 of the data model, as the engine keeps it, for a
    session driven through the page: while the suit picker is open, and
    whenever a suit override is set in a game that is not over, the top
    card of the discard pile is an eight. *)
Theorem override_sits_on_eight (app : App) :
  Played app ->
  (status (gameState app) = suit_selection -> topIsEight (gameState app))
  /\ (status (gameState app) <> game_over ->
      currentSuit (gameState app) <> None -> topIsEight (gameState app)).
Proof.
  intros Hp. destruct (played_sound app Hp) as [->|[_ Hst]].
  - simpl. split; [discriminate|]. intros _ H. now elim H.
  - destruct (status (gameState app)).
    + contradiction.
    + split; [discriminate|]. intros _. apply Hst.
    + split; intros; apply Hst.
    + split; [discriminate|]. intros H. now elim H.
Qed.

Lemma override_sits_on_eight_witness :
  (status (gameState matchPoint) = suit_selection ->
   topIsEight (gameState matchPoint))
  /\ (status (gameState matchPoint) <> game_over ->
      currentSuit (gameState matchPoint) <> None ->
      topIsEight (gameState matchPoint)).
Proof.
  apply (override_sits_on_eight matchPoint). exact matchPoint_played.
Defined.

(** X16. No control the page shows is dead.  In a session driven through
    the page, every action on show is carried out (the engine is never
    handed an empty discard pile, the deal never runs off the deck), the
    state it leads to is again a state of such a session, and a click on a
    playable card, on the draw pile or in the suit picker changes the
    component. *)
Theorem shown_action_is_carried_out (app : App) (a : Action) :
  Played app -> shown app a ->
  exists app',
    dispatch app a = Some app'
    /\ Played app'
    /\ match a with
       | PlayCard _ | DrawCard | SelectSuit _ => app' <> app
       | _ => True
       end.
Proof.
  intros Hp Hshown.
  assert (E : exists app', dispatch app a = Some app').
  { destruct (played_sound app Hp) as [->|Hsound].
    - destruct a as [c|  |s|fullDeck|  |]; cbn [shown gameState] in Hshown.
      + destruct Hshown as [[] _].
      + discriminate.
      + discriminate.
      + destruct (initGame_sound fullDeck Hshown) as (s & Es & _).
        cbn [dispatch]. rewrite Es. now eexists.
      + now eexists.
      + cbn in Hshown. lia.
    - destruct (sound_step app a Hsound Hshown) as (app' & E & _).
      now exists app'. }
  destruct E as [app' E]. exists app'. split; [exact E|].
  split; [now apply (played_step app a)|].
  destruct a as [c|  |s|fullDeck|  |]; auto; cbn [shown] in Hshown;
    intros ->; [|cbn [dispatch] in E..].
  - destruct Hshown as [_ Hplay].
    apply handCardPlayable_true in Hplay. destruct Hplay as (Ht & Hs & Htop).
    destruct (accepted_play player app c) as (g' & E' & _ & _ & _ & Hd & _);
      [split; auto|].
    cbn [playCard] in E'. rewrite E in E'. injection E' as E'.
    apply (f_equal gameState) in E'. cbn [gameState] in E'.
    rewrite <- E' in Hd. apply (f_equal (@length Card)) in Hd.
    rewrite length_app in Hd. simpl in Hd. lia.
  - apply drawPlayable_true in Hshown. destruct Hshown as [Ht Hs].
    unfold handleDrawCard in E. rewrite (notPlaying_false _ _ Ht Hs) in E.
    destruct (deck (gameState app)) as [|x d] eqn:Ed; cbn [commit] in E.
    + injection E as E. apply (f_equal skipTimers) in E. simpl in E. lia.
    + injection E as E. apply (f_equal (fun a => deck (gameState a))) in E.
      simpl in E. rewrite Ed in E.
      apply (f_equal (@length Card)) in E. simpl in E. lia.
  - unfold suitPickerShown in Hshown.
    destruct (status_eqb_spec (status (gameState app)) suit_selection)
      as [Hs|]; [|discriminate].
    cbn in E. injection E as E.
    apply (f_equal (fun a => status (gameState a))) in E. simpl in E.
    congruence.
Qed.

Lemma shown_action_is_carried_out_witness :
  exists app',
    dispatch matchPoint (PlayCard (card hearts r7)) = Some app'
    /\ Played app'
    /\ app' <> matchPoint.
Proof.
  apply (shown_action_is_carried_out matchPoint (PlayCard (card hearts r7))).
  - exact matchPoint_played.
  - split; [vm_compute; tauto | vm_compute; reflexivity].
Defined.

(** X17. Game over is final on the page.  Once the status is game_over no
    card, draw pile or suit picker is on show, and of the actions that are
    left only a new deal changes the session: the AI's timer does nothing
    and a skip-turn timer that was still armed changes the turn and nothing
    else. *)
Theorem game_over_is_final (app app' : App) (a : Action) :
  status (gameState app) = game_over ->
  shown app a ->
  dispatch app a = Some app' ->
  (exists fullDeck, a = Reset fullDeck)
  \/ (status (gameState app') = game_over
      /\ winner (gameState app') = winner (gameState app)
      /\ deck (gameState app') = deck (gameState app)
      /\ playerHand (gameState app') = playerHand (gameState app)
      /\ aiHand (gameState app') = aiHand (gameState app)
      /\ discardPile (gameState app') = discardPile (gameState app)
      /\ currentSuit (gameState app') = currentSuit (gameState app)
      /\ pendingSuitChange (gameState app') = pendingSuitChange (gameState app)
      /\ (a = AiTimer -> app' = app)).
Proof.
  intros Hs Hshown E.
  destruct a as [c|  |s|fullDeck|  |]; cbn [shown] in Hshown.
  - destruct Hshown as [_ Hp]. apply handCardPlayable_true in Hp.
    destruct Hp as (_ & Hs' & _). congruence.
  - apply drawPlayable_true in Hshown. destruct Hshown as [_ Hs']. congruence.
  - unfold suitPickerShown in Hshown. rewrite Hs in Hshown. discriminate.
  - left. now exists fullDeck.
  - right. cbn [dispatch] in E. unfold aiEffect in E. rewrite Hs in E.
    rewrite andb_false_r in E. injection E as <-. tauto.
  - right. cbn [dispatch] in E. destruct (skipTimers app); [discriminate|].
    injection E as <-. simpl. repeat split; auto. discriminate.
Qed.

Lemma game_over_is_final_witness :
  (exists fullDeck, AiTimer = Reset fullDeck)
  \/ (status (gameState wonGame) = game_over
      /\ winner (gameState wonGame) = winner (gameState wonGame)
      /\ deck (gameState wonGame) = deck (gameState wonGame)
      /\ playerHand (gameState wonGame) = playerHand (gameState wonGame)
      /\ aiHand (gameState wonGame) = aiHand (gameState wonGame)
      /\ discardPile (gameState wonGame) = discardPile (gameState wonGame)
      /\ currentSuit (gameState wonGame) = currentSuit (gameState wonGame)
      /\ pendingSuitChange (gameState wonGame)
         = pendingSuitChange (gameState wonGame)
      /\ (AiTimer = AiTimer -> wonGame = wonGame)).
Proof.
  apply (game_over_is_final wonGame wonGame AiTimer).
  - vm_compute. reflexivity.
  - exact I.
  - vm_compute. reflexivity.
Defined.

(** ** An eight and the suit picker *)

(** X18. An eight and the suit chosen for it.  When the player plays an
    eight and keeps cards, the suit picker opens with the player still to
    move; the suit then selected becomes the override, the game runs again
    with the AI to move and the pending flag cleared, and the piles are
    those the play left: the eight on top of the discard pile, the hand
    without it. *)
Theorem eight_then_suit (app : App) (c : Card) (s : Suit) :
  accepted player (gameState app) c ->
  rank c = r8 ->
  filter (otherThan c) (playerHand (gameState app)) <> [] ->
  exists app1 app2,
    dispatch app (PlayCard c) = Some app1
    /\ status (gameState app1) = suit_selection
    /\ pendingSuitChange (gameState app1) = true
    /\ currentTurn (gameState app1) = player
    /\ currentSuit (gameState app1) = currentSuit (gameState app)
    /\ dispatch app1 (SelectSuit s) = Some app2
    /\ status (gameState app2) = playing
    /\ pendingSuitChange (gameState app2) = false
    /\ currentTurn (gameState app2) = ai
    /\ currentSuit (gameState app2) = Some s
    /\ topCard (gameState app2) = Some c
    /\ playerHand (gameState app2)
       = filter (otherThan c) (playerHand (gameState app))
    /\ aiHand (gameState app2) = aiHand (gameState app)
    /\ deck (gameState app2) = deck (gameState app)
    /\ winner (gameState app2) = winner (gameState app).
Proof.
  intros Hacc Hr Hrest. apply isEight_true_iff in Hr.
  destruct (accepted_play player app c Hacc)
    as (g' & E & Hd & Hh & Ho & Hp & _ & _ & Height).
  destruct (Height Hrest Hr) as (Hw & Hs & Ht & Hpd & Hc).
  destruct Hacc as (Hturn & _).
  exists (mkApp g' (skipTimers app)). eexists.
  cbn [playCard actorHand opponent gameState] in *.
  split; [exact E|]. rewrite Hs, Hpd, Ht, Hc, Hturn.
  do 4 (split; [reflexivity|]). split; [reflexivity|].
  cbn. unfold topCard. cbn. rewrite Hp, Hh, Ho, Hd, Hw.
  repeat split. apply lastElement_snoc.
Qed.

Lemma eight_then_suit_witness :
  exists app1 app2,
    dispatch (mkApp sampleEightGame 0) (PlayCard (card hearts r8)) = Some app1
    /\ status (gameState app1) = suit_selection
    /\ pendingSuitChange (gameState app1) = true
    /\ currentTurn (gameState app1) = player
    /\ currentSuit (gameState app1) = None
    /\ dispatch app1 (SelectSuit clubs) = Some app2
    /\ status (gameState app2) = playing
    /\ pendingSuitChange (gameState app2) = false
    /\ currentTurn (gameState app2) = ai
    /\ currentSuit (gameState app2) = Some clubs
    /\ topCard (gameState app2) = Some (card hearts r8)
    /\ playerHand (gameState app2) = [card clubs rJ]
    /\ aiHand (gameState app2) = aiHand sampleEightGame
    /\ deck (gameState app2) = deck sampleEightGame
    /\ winner (gameState app2) = None.
Proof.
  apply (eight_then_suit (mkApp sampleEightGame 0) (card hearts r8) clubs).
  - split; [reflexivity|]. split; [reflexivity|].
    exists (card spades rK). split; reflexivity.
  - reflexivity.
  - discriminate.
Defined.
